(** * nowplaying-backend: the [/now-playing] and [/login] handlers

    A shallow embedding of [server.js] (the Express relay in front of the
    upstream "currently playing" endpoint) and of the [/login] variant that
    carries a sanitized return path.

    Conventions of the embedding.
    - JavaScript values that come out of [JSON.parse] or of the query-string
      parser are terms of [JsVal]; objects are finite maps from property
      names to values.
    - Numbers are integers (epoch milliseconds, durations, progress, HTTP
      status codes) and arithmetic on them is exact; the one quotient the
      handler computes is taken in [Q].  Rounding of IEEE doubles is not
      modelled.
    - Strings are sequences of 8-bit code units.
    - A handler run is atomic: all store accesses of [/now-playing] happen in
      the callback of the upstream request, and JavaScript runs a callback to
      completion.  The clock reading [server_now] and the upstream reply are
      inputs of the run. *)

From stdpp Require Import base gmap strings list pretty.
From Stdlib Require Import Ascii ZArith QArith.

Local Set Warnings "-register-all".
Local Open Scope Z_scope.

(** ** JavaScript values and the coercions the handlers rely on *)

Module JS.

Inductive JsVal :=
  | JUndefined
  | JNull
  | JBool (b : bool)
  | JNum (n : Z)
  | JStr (s : string)
  | JArr (l : list JsVal)
  | JObj (m : gmap string JsVal).

(** The result of [typeof v]. *)
Inductive TypeTag := TyUndefined | TyObject | TyBoolean | TyNumber | TyString.

Definition typeof (v : JsVal) : TypeTag :=
  match v with
  | JUndefined => TyUndefined
  | JNull => TyObject
  | JBool _ => TyBoolean
  | JNum _ => TyNumber
  | JStr _ => TyString
  | JArr _ => TyObject
  | JObj _ => TyObject
  end.

Definition is_object_tag (t : TypeTag) : bool :=
  match t with TyObject => true | _ => false end.

(** ToBoolean. *)
Definition truthy (v : JsVal) : bool :=
  match v with
  | JUndefined | JNull => false
  | JBool b => b
  | JNum n => negb (n =? 0)
  | JStr s => negb (String.eqb s "")
  | JArr _ | JObj _ => true
  end.

(** [a || b] on values. *)
Definition js_or (a b : JsVal) : JsVal := if truthy a then a else b.

(** Evaluation that may raise a [TypeError]. *)
Inductive Res (A : Type) :=
  | Ok (a : A)
  | TypeError.
Arguments Ok {A} a.
Arguments TypeError {A}.

Definition bind {A B : Type} (r : Res A) (k : A → Res B) : Res B :=
  match r with
  | Ok a => k a
  | TypeError => TypeError
  end.

Notation "'let*' x ':=' r 'in' k" := (bind r (fun x => k))
  (at level 10, x name, r at level 100, k at level 200).

(** [v.k] for a property name [k] that no prototype defines (every name the
    handlers read: [item], [is_playing], [progress_ms], [timestamp],
    [currently_playing_type], [id], [duration_ms]).  Reading a property of
    [null] or [undefined] throws. *)
Definition get (v : JsVal) (k : string) : Res JsVal :=
  match v with
  | JUndefined | JNull => TypeError
  | JObj m => Ok (default JUndefined (m !! k))
  | JBool _ | JNum _ | JStr _ | JArr _ => Ok JUndefined
  end.

(** Property read on a value already known not to be [null]/[undefined]. *)
Definition get_or_undefined (v : JsVal) (k : string) : JsVal :=
  match get v k with
  | Ok x => x
  | TypeError => JUndefined
  end.

(** [a === b] for two values that come from different [JSON.parse] results:
    primitives compare by value, objects and arrays by reference, and two
    parses never share a reference. *)
Definition strict_eq (a b : JsVal) : bool :=
  match a, b with
  | JUndefined, JUndefined => true
  | JNull, JNull => true
  | JBool x, JBool y => Bool.eqb x y
  | JNum x, JNum y => x =? y
  | JStr x, JStr y => String.eqb x y
  | _, _ => false
  end.

(** Own enumerable properties, as the object spread [{...v}] copies them. *)
Definition spread (v : JsVal) : gmap string JsVal :=
  match v with
  | JObj m => m
  | JArr l => list_to_map (imap (λ i x, (pretty i, x)) l)
  | JStr s => list_to_map (imap (λ i c, (pretty i, JStr (String c ""))) (String.list_ascii_of_string s))
  | JUndefined | JNull | JBool _ | JNum _ => ∅
  end.

(** *** Numbers *)

(** The result of a numeric conversion: a number or [NaN]. *)
Inductive number :=
  | Num (z : Z)
  | NaN.

(** [n || 0]. *)
Definition or_zero (n : number) : Z :=
  match n with
  | Num z => z
  | NaN => 0
  end.

(** The second argument of [Math.min(x, d || Infinity)]. *)
Inductive bound :=
  | Finite (z : Z)
  | Infinity.

Definition or_Infinity (d : Z) : bound :=
  if d =? 0 then Infinity else Finite d.

Definition Math_min (a : Z) (b : bound) : Z :=
  match b with
  | Finite z => Z.min a z
  | Infinity => a
  end.

(** *** Strings *)

(** White space and line terminators that [trim] strips, among the 8-bit
    code units: TAB, LF, VT, FF, CR, SP, NBSP. *)
Definition is_white_space (c : Ascii.ascii) : bool :=
  let n := Ascii.nat_of_ascii c in
  ((9 <=? n)%nat && (n <=? 13)%nat) || (n =? 32)%nat || (n =? 160)%nat.

Fixpoint trim_start (s : string) : string :=
  match s with
  | EmptyString => EmptyString
  | String c r => if is_white_space c then trim_start r else s
  end.

Fixpoint trim_end (s : string) : string :=
  match s with
  | EmptyString => EmptyString
  | String c r =>
      match trim_end r with
      | EmptyString => if is_white_space c then EmptyString else String c EmptyString
      | r' => String c r'
      end
  end.

Definition trim (s : string) : string := trim_end (trim_start s).

(** [s.startsWith(p)]. *)
Definition startsWith (s p : string) : bool := String.prefix p s.

(** [s.charAt(i)]: the empty string out of range. *)
Definition charAt (s : string) (i : nat) : string :=
  match String.get i s with
  | Some c => String c ""
  | None => ""
  end.

(** The value of a digit character: [0]-[9], [a]-[f], [A]-[F]. *)
Definition digit_of (c : Ascii.ascii) : option Z :=
  let n := Ascii.nat_of_ascii c in
  if ((48 <=? n)%nat && (n <=? 57)%nat)%bool then Some (Z.of_nat n - 48)
  else if ((97 <=? n)%nat && (n <=? 102)%nat)%bool then Some (Z.of_nat n - 87)
  else if ((65 <=? n)%nat && (n <=? 70)%nat)%bool then Some (Z.of_nat n - 55)
  else None.

Definition digit_value (radix : Z) (c : Ascii.ascii) : option Z :=
  match digit_of c with
  | Some d => if d <? radix then Some d else None
  | None => None
  end.

(** The longest prefix of [s] made of digits of [radix]: its value on top
    of [acc], the number of digits read on top of [count], and the rest. *)
Fixpoint digits (radix : Z) (s : string) (acc : Z) (count : nat) : Z * nat * string :=
  match s with
  | EmptyString => (acc, count, EmptyString)
  | String c r =>
      match digit_value radix c with
      | Some d => digits radix r (radix * acc + d) (S count)
      | None => (acc, count, s)
      end
  end.

(** One or more digits up to the end of the string. *)
Definition all_digits (radix : Z) (s : string) : option Z :=
  match digits radix s 0 0 with
  | (v, S _, EmptyString) => Some v
  | _ => None
  end.

(** [0x], [0o] and [0b] literals (either case), which take no sign. *)
Definition non_decimal (s : string) : option number :=
  match s with
  | String z (String c r) =>
      if Ascii.eqb z "0"%char then
        let read radix :=
          Some (match all_digits radix r with Some v => Num v | None => NaN end) in
        if Ascii.eqb c "x"%char || Ascii.eqb c "X"%char then read 16
        else if Ascii.eqb c "o"%char || Ascii.eqb c "O"%char then read 8
        else if Ascii.eqb c "b"%char || Ascii.eqb c "B"%char then read 2
        else None
      else None
  | _ => None
  end.

(** The exponent part after [e]: an optional sign and digits to the end. *)
Definition exponent (s : string) : option Z :=
  match s with
  | EmptyString => None
  | String c r =>
      if Ascii.eqb c "+"%char then all_digits 10 r
      else if Ascii.eqb c "-"%char then Z.opp <$> all_digits 10 r
      else all_digits 10 s
  end.

(** [m * 10 ^ x] when that is an integer. *)
Definition scaled (m x : Z) : number :=
  if 0 <=? x then Num (m * 10 ^ x)
  else if m mod 10 ^ (- x) =? 0 then Num (m / 10 ^ (- x))
  else NaN.

(** An unsigned decimal literal: digits, an optional fraction, an optional
    exponent, with a digit on at least one side of the point. *)
Definition unsigned_decimal (s : string) : number :=
  let '(i, ki, rest1) := digits 10 s 0 0 in
  let '(m, kf, rest2) :=
    match rest1 with
    | String c r => if Ascii.eqb c "."%char then digits 10 r i 0 else (i, O, rest1)
    | EmptyString => (i, O, rest1)
    end in
  match (ki + kf)%nat with
  | O => NaN
  | S _ =>
      match rest2 with
      | EmptyString => scaled m (- Z.of_nat kf)
      | String c r =>
          if Ascii.eqb c "e"%char || Ascii.eqb c "E"%char
          then match exponent r with
               | Some e => scaled m (e - Z.of_nat kf)
               | None => NaN
               end
          else NaN
      end
  end.

(** StringToNumber, the string grammar of [Number]: surrounding white space
    is dropped and the empty string is [0]; then a radix-prefixed literal, or
    an optional sign and a decimal literal with optional fraction and
    exponent; anything else is [NaN].  The literal is evaluated exactly, so
    ["2e5"], ["200000.0"] and ["0x30D40"] are all [200000].  A literal whose
    value is not an integer (["1.5"], ["1e-3"]) and [Infinity] have no image
    among the integers of this model, as a fractional JSON number has none,
    and read as [NaN]. *)
Definition StringToNumber (s : string) : number :=
  match trim s with
  | EmptyString => Num 0
  | String c r as t =>
      match non_decimal t with
      | Some n => n
      | None =>
          if Ascii.eqb c "+"%char then unsigned_decimal r
          else if Ascii.eqb c "-"%char then
            match unsigned_decimal r with
            | Num z => Num (- z)
            | NaN => NaN
            end
          else unsigned_decimal t
      end
  end.

(** [Number(v)].  An array converts through its string form: [[]] is the
    empty string, a one-element array is the element's string form (empty
    for [null] and [undefined]), and longer arrays contain a comma. *)
Fixpoint Number (v : JsVal) : number :=
  match v with
  | JUndefined => NaN
  | JNull => Num 0
  | JBool b => Num (if b then 1 else 0)
  | JNum n => Num n
  | JStr s => StringToNumber s
  | JObj _ => NaN
  | JArr [] => Num 0
  | JArr [x] =>
      match x with
      | JUndefined | JNull => Num 0
      | JBool _ => NaN
      | JNum n => Num n
      | JStr s => StringToNumber s
      | JObj _ => NaN
      | JArr _ => Number x
      end
  | JArr (_ :: _ :: _) => NaN
  end.

End JS.

Export JS.

(** ** The per-token memory of stable mode *)

(** The shape every value of [lastByToken] has: the handler is the only
    writer, and both of its writes build these seven properties. *)
Module Entry.
Record t := {
  item : JsVal;
  is_playing : bool;
  progress_ms : Z;
  timestamp : Z;
  server_now : Z;
  accepted_at : Z;
  source_status : Z
}.

(** The own properties of a stored value, as [{...last}] copies them. *)
Definition props (e : t) : gmap string JsVal :=
  <["item" := item e]>
  (<["is_playing" := JBool (is_playing e)]>
  (<["progress_ms" := JNum (progress_ms e)]>
  (<["timestamp" := JNum (timestamp e)]>
  (<["server_now" := JNum (server_now e)]>
  (<["accepted_at" := JNum (accepted_at e)]>
  (<["source_status" := JNum (source_status e)]> ∅)))))).
End Entry.

(** The normalized upstream snapshot ([const sample]). *)
Module Sample.
Record t := {
  item : JsVal;
  is_playing : bool;
  progress_ms : Z;
  timestamp : Z;
  currently_playing_type : JsVal
}.
End Sample.

(** What a run of the handler does to its environment, newest first: the
    outbound upstream request and the writes of [lastByToken].  [StoreSet]
    also records the clock reading of the request that wrote. *)
Inductive Effect :=
  | UpstreamGet (bearer : string)
  | StoreSet (key : string) (at_ms : Z) (e : Entry.t).

Record World := {
  lastByToken : gmap string Entry.t;
  effects : list Effect
}.

Definition initial : World := {| lastByToken := ∅; effects := [] |}.

(** [request.get({... 'Bearer ' + access_token ...}, callback)]. *)
Definition request_get (access_token : string) (w : World) : World :=
  {| lastByToken := lastByToken w;
     effects := UpstreamGet access_token :: effects w |}.

(** [lastByToken.set(access_token, e)]. *)
Definition store_set (access_token : string) (at_ms : Z) (e : Entry.t) (w : World) : World :=
  {| lastByToken := <[access_token := e]> (lastByToken w);
     effects := StoreSet access_token at_ms e :: effects w |}.

(** ** [/now-playing] of server.js *)

(** The query of a request: each parameter is absent or a string.  (Express
    parses repeated and bracketed parameters to arrays and objects; a
    credential is a string, and such requests are outside the model.) *)
Record Request := {
  access_token : option string;
  stable : option string
}.

(** What the upstream request hands to the callback: [error] is set or
    not, [response] is absent or carries a [statusCode], and [body] is the
    parsed payload (or the raw text, or [undefined]). *)
Record Reply := {
  error : bool;
  response : option Z;
  body : JsVal
}.

Record Response := {
  status : Z;
  no_store : bool;
  json : gmap string JsVal
}.

Inductive Outcome :=
  | Responded (r : Response)
  | Threw.

(** [setNoStore(res); return res.status(st).json(j)]. *)
Definition respond (st : Z) (j : gmap string JsVal) : Outcome :=
  Responded {| status := st; no_store := true; json := j |}.

(** [!access_token] is false. *)
Definition present (p : option string) : option string :=
  match p with
  | Some s => if String.eqb s "" then None else Some s
  | None => None
  end.

(** [(response && response.statusCode) || 500]. *)
Definition upstream_status (r : Reply) : Z :=
  match response r with
  | Some c => if c =? 0 then 500 else c
  | None => 500
  end.

Definition nothingPlaying (server_now status : Z) : gmap string JsVal :=
  <["item" := JNull]>
  (<["is_playing" := JBool false]>
  (<["progress_ms" := JNum 0]>
  (<["timestamp" := JNum server_now]>
  (<["server_now" := JNum server_now]>
  (<["source_status" := JNum status]> ∅))))).

(** [{ ...nothingPlaying, accepted_at: server_now }]. *)
Definition nothingPlaying_accepted (server_now status : Z) : Entry.t :=
  {| Entry.item := JNull;
     Entry.is_playing := false;
     Entry.progress_ms := 0;
     Entry.timestamp := server_now;
     Entry.server_now := server_now;
     Entry.source_status := status;
     Entry.accepted_at := server_now |}.

(** [typeof v === 'number' ? v : d]. *)
Definition number_or (v : JsVal) (d : Z) : Z :=
  match v with
  | JNum n => n
  | _ => d
  end.

(** [const sample = { item: body.item || null, ... }]; the property reads
    throw when [body] is [null]. *)
Definition make_sample (body : JsVal) (server_now : Z) : Res Sample.t :=
  let* b_item := get body "item" in
  let* b_is_playing := get body "is_playing" in
  let* b_progress_ms := get body "progress_ms" in
  let* b_timestamp := get body "timestamp" in
  let* b_type := get body "currently_playing_type" in
  Ok {| Sample.item := js_or b_item JNull;
        Sample.is_playing := truthy b_is_playing;
        Sample.progress_ms := number_or b_progress_ms 0;
        Sample.timestamp := number_or b_timestamp server_now;
        Sample.currently_playing_type := js_or b_type JNull |}.

(** Guard 1: [sample.timestamp + 1000 < last.timestamp]. *)
Definition stale (last : Entry.t) (sample : Sample.t) : bool :=
  Sample.timestamp sample + 1000 <? Entry.timestamp last.

(** Guard 2, the condition of the [if]:
    [last.item && sample.item && last.item.id !== sample.item.id]. *)
Definition track_changed (last : Entry.t) (sample : Sample.t) : bool :=
  truthy (Entry.item last) && truthy (Sample.item sample)
  && negb (strict_eq (get_or_undefined (Entry.item last) "id")
                     (get_or_undefined (Sample.item sample) "id")).

(** [(last.item && Number(last.item.duration_ms)) || 0]. *)
Definition prevDuration (last : Entry.t) : Z :=
  if truthy (Entry.item last)
  then or_zero (Number (get_or_undefined (Entry.item last) "duration_ms"))
  else 0.

(** [server_now - (last.accepted_at || server_now)]. *)
Definition elapsed (last : Entry.t) (server_now : Z) : Z :=
  server_now - (if Entry.accepted_at last =? 0 then server_now else Entry.accepted_at last).

(** [last.is_playing ? Math.min(last.progress_ms + elapsed, prevDuration || Infinity)
                     : last.progress_ms]. *)
Definition estLocal (last : Entry.t) (server_now : Z) : Z :=
  if Entry.is_playing last
  then Math_min (Entry.progress_ms last + elapsed last server_now)
                (or_Infinity (prevDuration last))
  else Entry.progress_ms last.

(** [prevDuration > 0 && (estLocal / prevDuration) >= 0.92]. *)
Definition nearEnd (last : Entry.t) (server_now : Z) : bool :=
  (0 <? prevDuration last)
  && Qle_bool (92 # 100) (inject_Z (estLocal last server_now) / inject_Z (prevDuration last)).

(** [sample.progress_ms < 1200]. *)
Definition newIsYoung (sample : Sample.t) : bool :=
  Sample.progress_ms sample <? 1200.

(** [const accepted = { item: sample.item, ..., source_status: 200 }]. *)
Definition accepted (sample : Sample.t) (server_now : Z) : Entry.t :=
  {| Entry.item := Sample.item sample;
     Entry.is_playing := Sample.is_playing sample;
     Entry.progress_ms := Sample.progress_ms sample;
     Entry.timestamp := Sample.timestamp sample;
     Entry.server_now := server_now;
     Entry.accepted_at := server_now;
     Entry.source_status := 200 |}.

(** [{ ...last, server_now, <flag>: true }]. *)
Definition reserve (last : Entry.t) (server_now : Z) (flag : string) : gmap string JsVal :=
  <[flag := JBool true]> (<["server_now" := JNum server_now]> (Entry.props last)).

(** Pass-through mode: the body of [if (!useStable) { ... }]. *)
Definition pass_through (server_now : Z) (r : Reply) : Outcome :=
  let status := upstream_status r in
  let nothing := nothingPlaying server_now status in
  if error r then respond 200 nothing
  else if status =? 204 then respond 200 (<["source_status" := JNum 204]> nothing)
  else if negb (status =? 200) || negb (is_object_tag (typeof (body r)))
  then respond 200 (<["error" := JStr "spotify_non_200"]> nothing)
  else respond 200 (<["server_now" := JNum server_now]> (spread (body r))).

(** Stable mode: the rest of the callback. *)
Definition stable_mode (access_token : string) (server_now : Z) (r : Reply) (w : World)
  : Outcome * World :=
  let status := upstream_status r in
  let nothing := nothingPlaying server_now status in
  if error r then (respond 200 nothing, w)
  else if status =? 204
  then (respond 200 nothing,
        store_set access_token server_now (nothingPlaying_accepted server_now status) w)
  else if negb (status =? 200) || negb (is_object_tag (typeof (body r)))
  then (respond 200 (<["error" := JStr "spotify_non_200"]> nothing), w)
  else
    match make_sample (body r) server_now with
    | TypeError => (Threw, w)
    | Ok sample =>
        let accept :=
          (respond 200 (Entry.props (accepted sample server_now)),
           store_set access_token server_now (accepted sample server_now) w) in
        match lastByToken w !! access_token with
        | None => accept
        | Some last =>
            if stale last sample
            then (respond 200 (reserve last server_now "stale_guard"), w)
            else if track_changed last sample
                    && (negb (nearEnd last server_now) && newIsYoung sample)
            then (respond 200 (reserve last server_now "early_switch_suppressed"), w)
            else accept
        end
    end.

(** The callback of the upstream request. *)
Definition callback (access_token : string) (useStable : bool) (server_now : Z)
    (r : Reply) (w : World) : Outcome * World :=
  if negb useStable then (pass_through server_now r, w)
  else stable_mode access_token server_now r w.

(** [req.query.stable === '1']. *)
Definition useStable (req : Request) : bool :=
  match stable req with
  | Some s => String.eqb s "1"
  | None => false
  end.

(** [app.get('/now-playing', ...)]: one request, with the clock reading
    taken on arrival and the reply the upstream gives if it is asked. *)
Definition now_playing (req : Request) (server_now : Z) (r : Reply) (w : World)
  : Outcome * World :=
  match present (access_token req) with
  | None => (respond 400 {[ "error" := JStr "Missing access token" ]}, w)
  | Some tok => callback tok (useStable req) server_now r (request_get tok w)
  end.

(** A sequence of requests served one after the other. *)
Record Poll := {
  poll_request : Request;
  poll_now : Z;
  poll_reply : Reply
}.

Definition serve (w : World) (p : Poll) : Outcome * World :=
  now_playing (poll_request p) (poll_now p) (poll_reply p) w.

Definition run (ps : list Poll) (w : World) : World :=
  fold_left (λ w p, (serve w p).2) ps w.

(** Worlds the service can be in: the initial one and what requests make
    of it. *)
Inductive reachable : World → Prop :=
  | reachable_initial : reachable initial
  | reachable_serve w p : reachable w → reachable (serve w p).2.

(** ** [/login] *)

(** The configuration read from the environment. *)
Record Env := {
  client_id : JsVal;
  client_secret : JsVal;
  redirect_uri : JsVal;
  frontend_uri : JsVal
}.

(** A redirect to [endpoint + querystring.stringify(params)]: the object
    handed to [querystring.stringify], in source order. *)
Record Redirect := {
  endpoint : string;
  params : list (string * JsVal)
}.

Definition possible : string :=
  "ABCDEFGHIJKLMNOPQRSTUVWXYZabcdefghijklmnopqrstuvwxyz0123456789".

Definition scope : string := "user-read-playback-state user-read-currently-playing".

Definition authorize : string := "https://accounts.spotify.com/authorize?".

(** The loop of [generateRandomString]; [draw i] is the value of
    [Math.floor(Math.random() * possible.length)] in iteration [i]. *)
Fixpoint generateRandomString_loop (draw : nat → nat) (i todo : nat) (text : string) : string :=
  match todo with
  | O => text
  | S todo' =>
      generateRandomString_loop draw (S i) todo' (text +:+ charAt possible (draw i))
  end.

Definition generateRandomString (draw : nat → nat) (length : nat) : string :=
  generateRandomString_loop draw 0 length EmptyString.

(** [/login] of server.js: the [state] parameter is the nonce, and the
    request's query is not read. *)
Definition login (env : Env) (draw : nat → nat) (query_return : JsVal) : Redirect :=
  let state := generateRandomString draw 16 in
  {| endpoint := authorize;
     params := [ ("response_type", JStr "code");
                 ("client_id", client_id env);
                 ("scope", JStr scope);
                 ("redirect_uri", redirect_uri env);
                 ("state", JStr state);
                 ("show_dialog", JBool true) ] |}.

(** The revision of the file whose [/login] accepts [?return=]. *)
Module Variant.

Definition fallback : string := "/spotify-overlay".

Definition sanitizeReturnPath (ret : JsVal) : string :=
  match ret with
  | JStr s =>
      if String.eqb (trim s) EmptyString then fallback
      else if negb (startsWith s "/") then fallback
      else if startsWith s "//" then fallback
      else s
  | _ => fallback
  end.

(** *** [JSON.stringify({ n: nonce, ret })] *)

Definition quote : Ascii.ascii := Ascii.ascii_of_nat 34.
Definition backslash : Ascii.ascii := Ascii.ascii_of_nat 92.

Definition hex_digit (n : nat) : Ascii.ascii :=
  Ascii.ascii_of_nat (if (n <? 10)%nat then 48 + n else 87 + n).

(** One code unit inside a JSON string literal. *)
Definition quote_unit (c : Ascii.ascii) : string :=
  let n := Ascii.nat_of_ascii c in
  if (n =? 8)%nat then String backslash "b"
  else if (n =? 9)%nat then String backslash "t"
  else if (n =? 10)%nat then String backslash "n"
  else if (n =? 12)%nat then String backslash "f"
  else if (n =? 13)%nat then String backslash "r"
  else if (n =? 34)%nat then String backslash (String quote EmptyString)
  else if (n =? 92)%nat then String backslash (String backslash EmptyString)
  else if (n <? 32)%nat
       then String backslash
              (String "u" (String "0" (String "0"
                 (String (hex_digit (n / 16)) (String (hex_digit (n mod 16)) EmptyString)))))
  else String c EmptyString.

Fixpoint quote_units (s : string) : string :=
  match s with
  | EmptyString => EmptyString
  | String c r => quote_unit c +:+ quote_units r
  end.

Definition quote_string (s : string) : string :=
  String quote (quote_units s +:+ String quote EmptyString).

Definition stringify_state (n ret : string) : string :=
  "{" +:+ quote_string "n" +:+ ":" +:+ quote_string n +:+ ","
      +:+ quote_string "ret" +:+ ":" +:+ quote_string ret +:+ "}".

Definition login (env : Env) (draw : nat → nat) (query_return : JsVal) : Redirect :=
  let nonce := generateRandomString draw 16 in
  let ret := sanitizeReturnPath (js_or query_return (JStr fallback)) in
  let statePayload := stringify_state nonce ret in
  {| endpoint := authorize;
     params := [ ("response_type", JStr "code");
                 ("client_id", client_id env);
                 ("scope", JStr scope);
                 ("redirect_uri", redirect_uri env);
                 ("state", JStr statePayload);
                 ("show_dialog", JBool true) ] |}.

End Variant.

(** [JSON.parse], which [/callback] of this revision applies to [state], on
    the compact text of an object with the two string properties [n] and
    [ret] in this order: the two strings, or [None] for any other text. *)
Module ReadState.

(** [s] without its prefix [p]. *)
Fixpoint strip (p s : string) : option string :=
  match p with
  | EmptyString => Some s
  | String a p' =>
      match s with
      | String b s' => if Ascii.eqb a b then strip p' s' else None
      | EmptyString => None
      end
  end.

(** The code unit a two-character escape stands for. *)
Definition unescape (c : Ascii.ascii) : option Ascii.ascii :=
  let n := Ascii.nat_of_ascii c in
  if (n =? 98)%nat then Some (Ascii.ascii_of_nat 8)
  else if (n =? 116)%nat then Some (Ascii.ascii_of_nat 9)
  else if (n =? 110)%nat then Some (Ascii.ascii_of_nat 10)
  else if (n =? 102)%nat then Some (Ascii.ascii_of_nat 12)
  else if (n =? 114)%nat then Some (Ascii.ascii_of_nat 13)
  else if (n =? 34)%nat then Some (Ascii.ascii_of_nat 34)
  else if (n =? 47)%nat then Some (Ascii.ascii_of_nat 47)
  else if (n =? 92)%nat then Some (Ascii.ascii_of_nat 92)
  else None.

Definition hex_value (c : Ascii.ascii) : option nat :=
  Z.to_nat <$> digit_value 16 c.

(** The code units of a JSON string literal up to its closing quote, and
    what follows the quote.  A control character must come escaped; of the
    [\uXXXX] escapes those of the code units below 256 are read, the ones a
    string of this model holds. *)
Fixpoint read_units (s : string) : option (string * string) :=
  match s with
  | EmptyString => None
  | String c r =>
      if Ascii.eqb c Variant.quote then Some (EmptyString, r)
      else if Ascii.eqb c Variant.backslash then
        match r with
        | EmptyString => None
        | String e r1 =>
            if Ascii.eqb e "u"%char then
              match r1 with
              | String a (String b (String h (String l r2))) =>
                  if Ascii.eqb a "0"%char && Ascii.eqb b "0"%char then
                    match hex_value h, hex_value l, read_units r2 with
                    | Some x, Some y, Some (t, rest) =>
                        Some (String (Ascii.ascii_of_nat (16 * x + y)) t, rest)
                    | _, _, _ => None
                    end
                  else None
              | _ => None
              end
            else
              match unescape e, read_units r1 with
              | Some d, Some (t, rest) => Some (String d t, rest)
              | _, _ => None
              end
        end
      else if (Ascii.nat_of_ascii c <? 32)%nat then None
      else
        match read_units r with
        | Some (t, rest) => Some (String c t, rest)
        | None => None
        end
  end.

Definition open_n : string :=
  "{" +:+ Variant.quote_string "n" +:+ ":" +:+ String Variant.quote EmptyString.

Definition open_ret : string :=
  "," +:+ Variant.quote_string "ret" +:+ ":" +:+ String Variant.quote EmptyString.

(** The values of [n] and [ret] in the text of an object with these two
    string properties, in this order. *)
Definition read_state (text : string) : option (string * string) :=
  match strip open_n text with
  | None => None
  | Some t1 =>
      match read_units t1 with
      | None => None
      | Some (n, t2) =>
          match strip open_ret t2 with
          | None => None
          | Some t3 =>
              match read_units t3 with
              | None => None
              | Some (ret, t4) => if String.eqb t4 "}" then Some (n, ret) else None
              end
          end
      end
  end.

End ReadState.

(** ** The stabilization rules in the words of the specification *)

Module Spec.

Definition estimatedLocalProgressMs
    (progressMs acceptedAtMs trackDurationMs : Z) (isPlaying : bool) (nowMs : Z) : Z :=
  if isPlaying
  then Z.min (progressMs + (nowMs - acceptedAtMs)) trackDurationMs
  else progressMs.

Definition nearEnd
    (progressMs acceptedAtMs trackDurationMs : Z) (isPlaying : bool) (nowMs : Z) : Prop :=
  0 < trackDurationMs ∧
  (92 # 100 <=
     inject_Z (estimatedLocalProgressMs progressMs acceptedAtMs trackDurationMs isPlaying nowMs)
     / inject_Z trackDurationMs)%Q.

Definition newIsYoung (progressMs : Z) : Prop := progressMs < 1200.

(** The normalizer's rule for [progress_ms] as the specification words it:
    the reported value when it is a non-negative number, [0] otherwise. *)
Definition progress_zeroing_negatives (v : JsVal) : Z :=
  match v with
  | JNum n => if 0 <=? n then n else 0
  | _ => 0
  end.

End Spec.

(** [nearEnd] of the specification, read on a stored state. *)
Definition spec_nearEnd (previous : Entry.t) (nowMs : Z) : Prop :=
  Spec.nearEnd (Entry.progress_ms previous) (Entry.accepted_at previous)
    (prevDuration previous) (Entry.is_playing previous) nowMs.

(** A request for credential [tok] in stable mode whose upstream reply is a
    200 that the handler normalizes to [sample]. *)
Definition stable_sample (req : Request) (now : Z) (r : Reply) (tok : string)
    (sample : Sample.t) : Prop :=
  present (access_token req) = Some tok ∧
  useStable req = true ∧
  error r = false ∧
  upstream_status r = 200 ∧
  is_object_tag (typeof (body r)) = true ∧
  make_sample (body r) now = Ok sample.

(** The three ways a stable-mode request with a sample ends. *)
Definition accepts (tok : string) (now : Z) (sample : Sample.t) (w : World) : Outcome * World :=
  (respond 200 (Entry.props (accepted sample now)),
   store_set tok now (accepted sample now) (request_get tok w)).

Definition keeps (flag : string) (tok : string) (now : Z) (last : Entry.t) (w : World)
  : Outcome * World :=
  (respond 200 (reserve last now flag), request_get tok w).

(** The ways a stable-mode request for credential [tok] ends, each with the
    condition under which the callback takes it. *)
Inductive stable_outcome (req : Request) (now : Z) (r : Reply) (tok : string) (w : World)
  : Outcome * World → Prop :=
  | ends_transport_error :
      error r = true →
      stable_outcome req now r tok w
        (respond 200 (nothingPlaying now (upstream_status r)), request_get tok w)
  | ends_no_content :
      error r = false → upstream_status r = 204 →
      stable_outcome req now r tok w
        (respond 200 (nothingPlaying now 204),
         store_set tok now (nothingPlaying_accepted now 204) (request_get tok w))
  | ends_non_200 :
      error r = false → upstream_status r ≠ 204 →
      upstream_status r ≠ 200 ∨ is_object_tag (typeof (body r)) = false →
      stable_outcome req now r tok w
        (respond 200 (<["error" := JStr "spotify_non_200"]>
                        (nothingPlaying now (upstream_status r))),
         request_get tok w)
  | ends_throwing :
      error r = false → upstream_status r = 200 →
      is_object_tag (typeof (body r)) = true →
      make_sample (body r) now = TypeError →
      stable_outcome req now r tok w (Threw, request_get tok w)
  | ends_stale sample last :
      stable_sample req now r tok sample →
      lastByToken w !! tok = Some last →
      stale last sample = true →
      stable_outcome req now r tok w (keeps "stale_guard" tok now last w)
  | ends_suppressed sample last :
      stable_sample req now r tok sample →
      lastByToken w !! tok = Some last →
      stale last sample = false →
      track_changed last sample = true →
      nearEnd last now = false →
      newIsYoung sample = true →
      stable_outcome req now r tok w (keeps "early_switch_suppressed" tok now last w)
  | ends_accepted sample :
      stable_sample req now r tok sample →
      (∀ last, lastByToken w !! tok = Some last →
         stale last sample = false
         ∧ track_changed last sample && (negb (nearEnd last now) && newIsYoung sample) = false) →
      stable_outcome req now r tok w (accepts tok now sample w).

(** The canonical empty sample with its diagnostic marker [source_status]. *)
Definition empty_sample (j : gmap string JsVal) (marker : Z) : Prop :=
  j !! "item" = Some JNull
  ∧ j !! "is_playing" = Some (JBool false)
  ∧ j !! "progress_ms" = Some (JNum 0)
  ∧ j !! "source_status" = Some (JNum marker).

(** The shape of a value written at clock reading [now]: [accepted_at] is
    that reading, and [source_status] is 200, or 204 on the empty sample. *)
Definition written_shape (now : Z) (e : Entry.t) : Prop :=
  Entry.accepted_at e = now
  ∧ (Entry.source_status e = 200
     ∨ (Entry.source_status e = 204
        ∧ Entry.item e = JNull
        ∧ Entry.is_playing e = false
        ∧ Entry.progress_ms e = 0)).

(** The writes among a list of effects. *)
Definition is_write (e : Effect) : bool :=
  match e with
  | StoreSet _ _ _ => true
  | UpstreamGet _ => false
  end.

(** The latest value written under [key] in a log (newest first). *)
Fixpoint last_write (key : string) (log : list Effect) : option Entry.t :=
  match log with
  | [] => None
  | StoreSet k _ e :: log' => if String.eqb k key then Some e else last_write key log'
  | UpstreamGet _ :: log' => last_write key log'
  end.

(** ** Scenarios *)

Definition track (id : string) (duration_ms : Z) : JsVal :=
  JObj (<["id" := JStr id]> (<["duration_ms" := JNum duration_ms]> ∅)).

Definition track_without_duration (id : string) : JsVal :=
  JObj (<["id" := JStr id]> ∅).

Definition playing (item : JsVal) (progress_ms timestamp : Z) : JsVal :=
  JObj (<["item" := item]>
       (<["is_playing" := JBool true]>
       (<["progress_ms" := JNum progress_ms]>
       (<["timestamp" := JNum timestamp]> ∅)))).

(** The sample the handler makes of [playing item progress_ms timestamp]. *)
Definition sampled (item : JsVal) (progress_ms timestamp : Z) : Sample.t :=
  {| Sample.item := item;
     Sample.is_playing := true;
     Sample.progress_ms := progress_ms;
     Sample.timestamp := timestamp;
     Sample.currently_playing_type := JNull |}.

Definition ok (body : JsVal) : Reply :=
  {| error := false; response := Some 200; body := body |}.

Definition no_content : Reply :=
  {| error := false; response := Some 204; body := JUndefined |}.

Definition transport_error : Reply :=
  {| error := true; response := None; body := JUndefined |}.

Definition stable_request (tok : string) : Request :=
  {| access_token := Some tok; stable := Some "1" |}.

Definition plain_request (tok : string) : Request :=
  {| access_token := Some tok; stable := None |}.

(** A state accepted at [accepted_at] for a playing track. *)
Definition previous (item : JsVal) (progress_ms timestamp accepted_at : Z) : Entry.t :=
  {| Entry.item := item;
     Entry.is_playing := true;
     Entry.progress_ms := progress_ms;
     Entry.timestamp := timestamp;
     Entry.server_now := accepted_at;
     Entry.accepted_at := accepted_at;
     Entry.source_status := 200 |}.

Definition remembering (tok : string) (e : Entry.t) : World :=
  {| lastByToken := <[tok := e]> ∅; effects := [StoreSet tok (Entry.accepted_at e) e] |}.

(** ** The token exchange: [/callback] and [/refresh_token] *)

(** What [request.post(authOptions, ...)] is given: the endpoint, the form,
    the two halves of the Basic credential and the timeout. *)
Record TokenRequest := {
  url : string;
  form : list (string * JsVal);
  basic_user : JsVal;
  basic_password : JsVal;
  timeout : Z
}.

Definition token_url : string := "https://accounts.spotify.com/api/token".

(** The target of a redirect to
    [`${base}${path}?${querystring.stringify(query)}`]. *)
Record Target := {
  base : JsVal;
  path : string;
  query : list (string * JsVal)
}.

Inductive Answer :=
  | Redirected (t : Target)
  | Sent (status : Z) (body : gmap string JsVal)
  | Thrown.

(** A handled request: the token request it issued, if any, and its end. *)
Record Handled := {
  asked : option TokenRequest;
  answer : Answer
}.

(** A query parameter as the handler reads it. *)
Definition param (p : option string) : JsVal :=
  match p with
  | Some s => JStr s
  | None => JUndefined
  end.

(** server.js. *)
Module Tokens.

(** [!error && response.statusCode === 200]; reading [statusCode] of an
    absent response throws. *)
Definition exchanged (r : Reply) : Res bool :=
  if error r then Ok false
  else match response r with
       | Some c => Ok (c =? 200)
       | None => TypeError
       end.

Definition authorization_code (env : Env) (code : JsVal) : TokenRequest :=
  {| url := token_url;
     form := [ ("code", code);
               ("redirect_uri", redirect_uri env);
               ("grant_type", JStr "authorization_code") ];
     basic_user := client_id env;
     basic_password := client_secret env;
     timeout := 8000 |}.

Definition invalid_token (env : Env) (path : string) : Target :=
  {| base := frontend_uri env; path := path; query := [ ("error", JStr "invalid_token") ] |}.

(** The success branch of [/callback]: the two property reads throw on a
    [null] or [undefined] body. *)
Definition with_tokens (env : Env) (path : string) (body : JsVal) : Answer :=
  match get body "access_token", get body "refresh_token" with
  | Ok access_token, Ok refresh_token =>
      Redirected {| base := frontend_uri env; path := path;
                    query := [ ("access_token", access_token);
                               ("refresh_token", refresh_token) ] |}
  | _, _ => Thrown
  end.

(** [app.get('/callback', ...)]. *)
Definition callback (env : Env) (query_code : option string) (r : Reply) : Handled :=
  let code := js_or (param query_code) JNull in
  {| asked := Some (authorization_code env code);
     answer := match exchanged r with
               | TypeError => Thrown
               | Ok true => with_tokens env "/" (body r)
               | Ok false => Redirected (invalid_token env "/")
               end |}.

Definition refresh (env : Env) (refresh_token : JsVal) (timeout : Z) : TokenRequest :=
  {| url := token_url;
     form := [ ("grant_type", JStr "refresh_token");
               ("refresh_token", refresh_token) ];
     basic_user := client_id env;
     basic_password := client_secret env;
     timeout := timeout |}.

(** The success branch of [/refresh_token]. *)
Definition with_access_token (body : JsVal) : Answer :=
  match get body "access_token" with
  | Ok access_token => Sent 200 (<["access_token" := access_token]> ∅)
  | TypeError => Thrown
  end.

Definition failed_to_refresh : Answer :=
  Sent 400 (<["error" := JStr "Failed to refresh token"]> ∅).

(** [app.get('/refresh_token', ...)]. *)
Definition refresh_token (env : Env) (query_refresh_token : option string) (r : Reply)
  : Handled :=
  {| asked := Some (refresh env (param query_refresh_token) 8000);
     answer := match exchanged r with
               | TypeError => Thrown
               | Ok true => with_access_token (body r)
               | Ok false => failed_to_refresh
               end |}.

End Tokens.

(** The revision with [sanitizeReturnPath].  [JSON.parse] is the parameter
    [parse]: a value, or a throw. *)
Module VariantTokens.

(** [!error && response && response.statusCode === 200]. *)
Definition exchanged (r : Reply) : bool :=
  negb (error r)
  && match response r with
     | Some c => c =? 200
     | None => false
     end.

(** The [try { ... } catch { ... }] at the head of [/callback]. *)
Definition retPath (parse : string → Res JsVal) (query_state : option string) : string :=
  match present query_state with
  | None => Variant.fallback
  | Some state =>
      match parse state with
      | TypeError => Variant.fallback
      | Ok parsed =>
          if truthy parsed
          then Variant.sanitizeReturnPath (get_or_undefined parsed "ret")
          else Variant.sanitizeReturnPath parsed
      end
  end.

Definition authorization_code (env : Env) (code : JsVal) : TokenRequest :=
  {| url := token_url;
     form := [ ("code", code);
               ("redirect_uri", redirect_uri env);
               ("grant_type", JStr "authorization_code") ];
     basic_user := client_id env;
     basic_password := client_secret env;
     timeout := 10000 |}.

(** [app.get('/callback', ...)]. *)
Definition callback (parse : string → Res JsVal) (env : Env)
    (query_state query_code : option string) (r : Reply) : Handled :=
  let path := retPath parse query_state in
  let code := js_or (param query_code) JNull in
  {| asked := Some (authorization_code env code);
     answer := if exchanged r
               then Tokens.with_tokens env path (body r)
               else Redirected (Tokens.invalid_token env path) |}.

(** [app.get('/refresh_token', ...)]. *)
Definition refresh_token (env : Env) (query_refresh_token : option string) (r : Reply)
  : Handled :=
  match present query_refresh_token with
  | None => {| asked := None;
               answer := Sent 400 (<["error" := JStr "Missing refresh_token"]> ∅) |}
  | Some token =>
      {| asked := Some (Tokens.refresh env (JStr token) 10000);
         answer := if exchanged r
                   then Tokens.with_access_token (body r)
                   else Tokens.failed_to_refresh |}
  end.

End VariantTokens.

(** ** [/now-playing] of the first revision *)

Module Original.

Inductive Answer :=
  | Answered (status : Z) (body : JsVal)
  | Thrown.

Definition failed : JsVal :=
  JObj (<["error" := JStr "Failed to fetch now playing"]> ∅).

(** [res.json(body)] on success, [res.status(response.statusCode).json(...)]
    otherwise; both reads of [response.statusCode] throw when there is no
    response. *)
Definition now_playing (req : Request) (r : Reply) : Answer :=
  match present (access_token req) with
  | None => Answered 400 (JObj (<["error" := JStr "Missing access token"]> ∅))
  | Some _ =>
      match Tokens.exchanged r with
      | TypeError => Thrown
      | Ok true => Answered 200 (body r)
      | Ok false =>
          match response r with
          | Some c => Answered c failed
          | None => Thrown
          end
      end
  end.

End Original.

(** ** [/now-playing] of the hardened revision *)

(** The revision without pass-through mode: the clock is read in the
    callback, and the stored values have no [server_now]. *)
Module Hardened.

Record entry := {
  item : JsVal;
  is_playing : bool;
  progress_ms : Z;
  timestamp : Z;
  accepted_at : Z;
  source_status : Z
}.

Definition props (e : entry) : gmap string JsVal :=
  <["item" := item e]>
  (<["is_playing" := JBool (is_playing e)]>
  (<["progress_ms" := JNum (progress_ms e)]>
  (<["timestamp" := JNum (timestamp e)]>
  (<["accepted_at" := JNum (accepted_at e)]>
  (<["source_status" := JNum (source_status e)]> ∅))))).

(** The five properties every empty answer starts with. *)
Definition nothing (server_now : Z) : gmap string JsVal :=
  <["item" := JNull]>
  (<["is_playing" := JBool false]>
  (<["progress_ms" := JNum 0]>
  (<["timestamp" := JNum server_now]>
  (<["server_now" := JNum server_now]> ∅)))).

Definition stale (last : entry) (sample : Sample.t) : bool :=
  Sample.timestamp sample + 1000 <? timestamp last.

Definition track_changed (last : entry) (sample : Sample.t) : bool :=
  truthy (item last) && truthy (Sample.item sample)
  && negb (strict_eq (get_or_undefined (item last) "id")
                     (get_or_undefined (Sample.item sample) "id")).

(** [(last.item && last.item.duration_ms) ? Number(last.item.duration_ms) : 0]. *)
Definition prevDuration (last : entry) : number :=
  if truthy (item last) && truthy (get_or_undefined (item last) "duration_ms")
  then Number (get_or_undefined (item last) "duration_ms")
  else Num 0.

(** [prevDuration || Infinity]. *)
Definition or_Infinity (d : number) : bound :=
  match d with
  | Num z => JS.or_Infinity z
  | NaN => Infinity
  end.

Definition estimatedLocalProgress (last : entry) (server_now : Z) : Z :=
  if is_playing last
  then Math_min (progress_ms last + (server_now - accepted_at last))
                (or_Infinity (prevDuration last))
  else progress_ms last.

(** [prevDuration > 0 && (estimatedLocalProgress / prevDuration) >= 0.92];
    [NaN > 0] is false. *)
Definition nearEnd (last : entry) (server_now : Z) : bool :=
  match prevDuration last with
  | Num d =>
      (0 <? d)
      && Qle_bool (92 # 100) (inject_Z (estimatedLocalProgress last server_now) / inject_Z d)
  | NaN => false
  end.

Definition accepted (sample : Sample.t) (server_now : Z) : entry :=
  {| item := Sample.item sample;
     is_playing := Sample.is_playing sample;
     progress_ms := Sample.progress_ms sample;
     timestamp := Sample.timestamp sample;
     accepted_at := server_now;
     source_status := 200 |}.

(** The callback; [server_now] is the clock reading taken in it. *)
Definition callback (access_token : string) (server_now : Z) (r : Reply)
    (store : gmap string entry) : Outcome * gmap string entry :=
  if error r
  then (respond 200 (<["error" := JStr "backend_fetch_failed"]> (nothing server_now)), store)
  else
    match response r with
    | None => (Threw, store)
    | Some status =>
        if status =? 204
        then (respond 200 (<["source_status" := JNum 204]> (nothing server_now)),
              <[access_token := {| item := JNull; is_playing := false; progress_ms := 0;
                                   timestamp := server_now; accepted_at := server_now;
                                   source_status := 204 |}]> store)
        else if negb (status =? 200) || negb (is_object_tag (typeof (body r)))
        then (respond 200 (<["error" := JStr "spotify_non_200"]>
                             (<["source_status" := JNum status]> (nothing server_now))),
              store)
        else
          match make_sample (body r) server_now with
          | TypeError => (Threw, store)
          | Ok sample =>
              let accept :=
                (respond 200 (<["server_now" := JNum server_now]>
                                (props (accepted sample server_now))),
                 <[access_token := accepted sample server_now]> store) in
              match store !! access_token with
              | None => accept
              | Some last =>
                  if stale last sample
                  then (respond 200 (<["stale_guard" := JBool true]>
                                       (<["server_now" := JNum server_now]> (props last))),
                        store)
                  else if track_changed last sample
                          && (negb (nearEnd last server_now) && newIsYoung sample)
                  then (respond 200 (<["early_switch_suppressed" := JBool true]>
                                       (<["server_now" := JNum server_now]> (props last))),
                        store)
                  else accept
              end
          end
    end.

Definition now_playing (req : Request) (server_now : Z) (r : Reply)
    (store : gmap string entry) : Outcome * gmap string entry :=
  match present (access_token req) with
  | None => (respond 400 {[ "error" := JStr "Missing access token" ]}, store)
  | Some tok => callback tok server_now r store
  end.


End Hardened.

(** Every character of [s] is one of [alphabet]. *)
Definition drawn_from (alphabet s : string) : Prop :=
  ∀ c, In c (String.list_ascii_of_string s) → In c (String.list_ascii_of_string alphabet).

(** * Properties *)

(** ** Basic facts about the model *)

(** [Number] on strings: plain, exponent, fraction and radix-prefixed
    literals of the same value, signs and surrounding white space, and texts
    that are no numeric literal. *)
Example StringToNumber_literals :
  StringToNumber "200000" = Num 200000
  ∧ StringToNumber "2e5" = Num 200000
  ∧ StringToNumber "200000.0" = Num 200000
  ∧ StringToNumber "0x30D40" = Num 200000
  ∧ StringToNumber "  200000 " = Num 200000
  ∧ StringToNumber "+1E+2" = Num 100
  ∧ StringToNumber "-12" = Num (-12)
  ∧ StringToNumber "1000e-3" = Num 1
  ∧ StringToNumber ".5e1" = Num 5
  ∧ StringToNumber "1." = Num 1
  ∧ StringToNumber "0b101" = Num 5
  ∧ StringToNumber "0o17" = Num 15
  ∧ StringToNumber "" = Num 0
  ∧ StringToNumber "12px" = NaN
  ∧ StringToNumber "1_000" = NaN
  ∧ StringToNumber "-0x10" = NaN
  ∧ StringToNumber "0x" = NaN
  ∧ StringToNumber "1e" = NaN
  ∧ StringToNumber "." = NaN.
Proof. vm_compute. repeat split. Qed.

Lemma ratio_at_least_092 (e d : Z) :
  0 < d →
  Qle_bool (92 # 100) (inject_Z e / inject_Z d) = true ↔ 92 * d ≤ 100 * e.
Proof.
  intros Hd.
  assert (Hq : (0 < inject_Z d)%Q) by (unfold Qlt; simpl; lia).
  rewrite Qle_bool_iff. split.
  - intros H.
    apply (Qmult_le_compat_r _ _ (inject_Z d)) in H; [| apply Qlt_le_weak, Hq].
    unfold Qdiv in H.
    rewrite <- Qmult_assoc, (Qmult_comm (/ inject_Z d)), Qmult_inv_r, Qmult_1_r in H
      by (intros E; rewrite E in Hq; discriminate).
    unfold Qle in H; simpl in H. lia.
  - intros H. apply Qle_shift_div_l; [exact Hq |].
    unfold Qle; simpl. lia.
Qed.

(** The handler's [nearEnd] is the specification's, for a state whose
    [accepted_at] is a clock reading other than [0]. *)
Lemma nearEnd_spec (last : Entry.t) (now : Z) :
  Entry.accepted_at last ≠ 0 →
  nearEnd last now = true ↔ spec_nearEnd last now.
Proof.
  intros Hacc. unfold nearEnd, spec_nearEnd, Spec.nearEnd.
  rewrite andb_true_iff, Z.ltb_lt, Qle_bool_iff.
  assert (Hest : 0 < prevDuration last →
    estLocal last now =
    Spec.estimatedLocalProgressMs (Entry.progress_ms last) (Entry.accepted_at last)
      (prevDuration last) (Entry.is_playing last) now).
  { intros Hd. unfold estLocal, Spec.estimatedLocalProgressMs, elapsed, or_Infinity.
    destruct (Entry.is_playing last); [| reflexivity].
    destruct (Z.eqb_spec (prevDuration last) 0) as [E | _]; [lia |].
    destruct (Z.eqb_spec (Entry.accepted_at last) 0) as [E | _]; [contradiction |].
    reflexivity. }
  split; intros [Hd H]; (split; [exact Hd |]).
  - rewrite <- Hest by exact Hd. exact H.
  - rewrite Hest by exact Hd. exact H.
Qed.

(** The quotient test of [nearEnd] is a comparison of integers. *)
Lemma nearEnd_integers (last : Entry.t) (now : Z) :
  nearEnd last now = true
  ↔ 0 < prevDuration last ∧ 92 * prevDuration last ≤ 100 * estLocal last now.
Proof.
  unfold nearEnd. rewrite andb_true_iff, Z.ltb_lt. split; intros [Hd H].
  - split; [exact Hd |]. apply ratio_at_least_092; assumption.
  - split; [exact Hd |]. apply ratio_at_least_092; assumption.
Qed.

Lemma nearEnd_needs_duration (last : Entry.t) (now : Z) :
  prevDuration last ≤ 0 → nearEnd last now = false.
Proof.
  intros Hd. unfold nearEnd.
  destruct (Z.ltb_spec 0 (prevDuration last)); [lia | reflexivity].
Qed.

Lemma stable_mode_sample req now r tok sample w :
  stable_sample req now r tok sample →
  now_playing req now r w =
    match lastByToken w !! tok with
    | None => accepts tok now sample w
    | Some last =>
        if stale last sample then keeps "stale_guard" tok now last w
        else if track_changed last sample
                && (negb (nearEnd last now) && newIsYoung sample)
        then keeps "early_switch_suppressed" tok now last w
        else accepts tok now sample w
    end.
Proof.
  intros (Htok & Hst & Herr & H200 & Hobj & Hs).
  unfold now_playing, callback, stable_mode. rewrite Htok, Hst. simpl.
  rewrite Herr, H200, Hobj, Hs. simpl. reflexivity.
Qed.

Lemma keeps_not_accepts flag tok now last sample w :
  keeps flag tok now last w ≠ accepts tok now sample w.
Proof.
  unfold keeps, accepts. intros H.
  apply (f_equal (λ o, length (effects o.2))) in H. simpl in H. lia.
Qed.

(** ** Guard 1: stale samples *)

(** Membership of a name in a list of names, and its failure for a name
    that differs from each of them. *)
Ltac listed := repeat first [apply list_elem_of_here | apply list_elem_of_further].

Ltac unlisted :=
  let H := fresh "H" in
  intros H;
  repeat (apply elem_of_cons in H; destruct H as [H | H]; [discriminate H |]);
  exact (proj1 (elem_of_nil _) H).

(** What a re-served state answers: the remembered properties, the
    request's [server_now] and the flag. *)
Lemma reserve_lookups (last : Entry.t) (now : Z) (flag : string) :
  flag ∉ ["item"; "is_playing"; "progress_ms"; "timestamp"; "server_now"; "accepted_at";
          "source_status"] →
  let answer := reserve last now flag in
  answer !! "item" = Some (Entry.item last)
  ∧ answer !! "is_playing" = Some (JBool (Entry.is_playing last))
  ∧ answer !! "progress_ms" = Some (JNum (Entry.progress_ms last))
  ∧ answer !! "timestamp" = Some (JNum (Entry.timestamp last))
  ∧ answer !! "accepted_at" = Some (JNum (Entry.accepted_at last))
  ∧ answer !! "source_status" = Some (JNum (Entry.source_status last))
  ∧ answer !! "server_now" = Some (JNum now)
  ∧ answer !! flag = Some (JBool true)
  ∧ (∀ k, k ∉ ["item"; "is_playing"; "progress_ms"; "timestamp"; "server_now";
               "accepted_at"; "source_status"; flag] → answer !! k = None).
Proof.
  intros Hflag answer. subst answer. unfold reserve, Entry.props.
  assert (Hne : ∀ k, k ∈ ["item"; "is_playing"; "progress_ms"; "timestamp"; "server_now";
                          "accepted_at"; "source_status"] → flag ≠ k).
  { intros k Hk ->. exact (Hflag Hk). }
  do 7 (split; [rewrite lookup_insert_ne by (apply Hne; listed);
                repeat (rewrite lookup_insert_ne by discriminate);
                apply lookup_insert_eq |]).
  split; [apply lookup_insert_eq |].
  intros k Hk.
  repeat (rewrite lookup_insert_ne by (intros <-; apply Hk; listed)).
  apply lookup_empty.
Qed.

(** C2. In stable mode, when a state is remembered for the credential and the
    sample's timestamp is more than 1000 ms behind the remembered one, the
    handler answers 200 with the remembered state: [item], [is_playing],
    [progress_ms], [timestamp], [accepted_at] and [source_status] are the
    remembered ones, [server_now] is the request's, [stale_guard: true] is
    added and nothing else is sent; the store is not written.  The check
    comes before the early-switch guard: the answer is the stale one,
    without [early_switch_suppressed], whatever tracks the two name. *)
Theorem stale_sample_guard req now r tok sample last w :
  stable_sample req now r tok sample →
  lastByToken w !! tok = Some last →
  Sample.timestamp sample + 1000 < Entry.timestamp last →
  let out := now_playing req now r w in
  ∃ answer,
    out.1 = Responded {| status := 200; no_store := true; json := answer |}
    ∧ answer !! "item" = Some (Entry.item last)
    ∧ answer !! "is_playing" = Some (JBool (Entry.is_playing last))
    ∧ answer !! "progress_ms" = Some (JNum (Entry.progress_ms last))
    ∧ answer !! "timestamp" = Some (JNum (Entry.timestamp last))
    ∧ answer !! "accepted_at" = Some (JNum (Entry.accepted_at last))
    ∧ answer !! "source_status" = Some (JNum (Entry.source_status last))
    ∧ answer !! "server_now" = Some (JNum now)
    ∧ answer !! "stale_guard" = Some (JBool true)
    ∧ answer !! "early_switch_suppressed" = None
    ∧ (∀ k, k ∉ ["item"; "is_playing"; "progress_ms"; "timestamp"; "server_now";
                 "accepted_at"; "source_status"; "stale_guard"] → answer !! k = None)
    ∧ lastByToken out.2 !! tok = Some last
    ∧ lastByToken out.2 = lastByToken w
    ∧ filter is_write (effects out.2) = filter is_write (effects w).
Proof.
  intros Hs Hlast Hlt out. subst out.
  rewrite (stable_mode_sample _ _ _ _ _ _ Hs), Hlast.
  unfold stale. destruct (Z.ltb_spec (Sample.timestamp sample + 1000) (Entry.timestamp last));
    [| lia].
  exists (reserve last now "stale_guard").
  destruct (reserve_lookups last now "stale_guard") as (H1 & H2 & H3 & H4 & H5 & H6 & H7 & H8 & H9).
  { unlisted. }
  split; [reflexivity |].
  do 8 (split; [assumption |]).
  split; [apply H9; unlisted |].
  split; [exact H9 |].
  split; [exact Hlast |].
  split; reflexivity.
Qed.

(** Previous timestamp 100000, sample timestamp 98500, and a sample that the
    early-switch guard would otherwise suppress: the answer is the remembered
    track [A] at 100000 ms, flagged stale. *)
Lemma stale_sample_guard_witness :
  let last := previous (track "A" 200000) 100000 100000 1700000000000 in
  let out := now_playing (stable_request "tok") 1700000001000
               (ok (playing (track "B" 180000) 500 98500)) (remembering "tok" last) in
  ∃ answer,
    out.1 = Responded {| status := 200; no_store := true; json := answer |}
    ∧ answer !! "item" = Some (track "A" 200000)
    ∧ answer !! "is_playing" = Some (JBool true)
    ∧ answer !! "progress_ms" = Some (JNum 100000)
    ∧ answer !! "timestamp" = Some (JNum 100000)
    ∧ answer !! "accepted_at" = Some (JNum 1700000000000)
    ∧ answer !! "source_status" = Some (JNum 200)
    ∧ answer !! "server_now" = Some (JNum 1700000001000)
    ∧ answer !! "stale_guard" = Some (JBool true)
    ∧ answer !! "early_switch_suppressed" = None
    ∧ (∀ k, k ∉ ["item"; "is_playing"; "progress_ms"; "timestamp"; "server_now";
                 "accepted_at"; "source_status"; "stale_guard"] → answer !! k = None)
    ∧ lastByToken out.2 !! "tok" = Some last
    ∧ lastByToken out.2 = lastByToken (remembering "tok" last)
    ∧ filter is_write (effects out.2) = filter is_write (effects (remembering "tok" last)).
Proof.
  intros last out.
  refine (stale_sample_guard (stable_request "tok") 1700000001000
            (ok (playing (track "B" 180000) 500 98500)) "tok"
            (sampled (track "B" 180000) 500 98500) last (remembering "tok" last) _ _ _).
  - repeat (split; [vm_compute; reflexivity |]). vm_compute; reflexivity.
  - vm_compute; reflexivity.
  - simpl; lia.
Defined.

(** ** Guard 2: early track switches *)

(** The duration the handler reads off the remembered track when its
    [duration_ms] is a number, or is absent. *)
Lemma prevDuration_read (last : Entry.t) (d : Z) :
  truthy (Entry.item last) = true →
  get_or_undefined (Entry.item last) "duration_ms" = JNum d
  ∨ (get_or_undefined (Entry.item last) "duration_ms" = JUndefined ∧ d = 0) →
  prevDuration last = d.
Proof.
  intros Hitem. unfold prevDuration. rewrite Hitem.
  intros [-> | [-> ->]]; reflexivity.
Qed.

(** What an accepted sample answers. *)
Lemma accepted_lookups (sample : Sample.t) (now : Z) :
  let answer := Entry.props (accepted sample now) in
  answer !! "item" = Some (Sample.item sample)
  ∧ answer !! "is_playing" = Some (JBool (Sample.is_playing sample))
  ∧ answer !! "progress_ms" = Some (JNum (Sample.progress_ms sample))
  ∧ answer !! "timestamp" = Some (JNum (Sample.timestamp sample))
  ∧ answer !! "server_now" = Some (JNum now)
  ∧ answer !! "accepted_at" = Some (JNum now)
  ∧ answer !! "source_status" = Some (JNum 200)
  ∧ (∀ k, k ∉ ["item"; "is_playing"; "progress_ms"; "timestamp"; "server_now";
               "accepted_at"; "source_status"] → answer !! k = None).
Proof.
  intros answer. subst answer. unfold Entry.props, accepted. simpl.
  do 7 (split; [repeat (rewrite lookup_insert_ne by discriminate);
                apply lookup_insert_eq |]).
  intros k Hk.
  repeat (rewrite lookup_insert_ne by (intros <-; apply Hk; listed)).
  apply lookup_empty.
Qed.

(** C1. In stable mode, for a sample that reaches the early-switch guard
    (it passed the stale guard) while the remembered state and the sample
    both name a track and the two track ids differ, with [trackDurationMs]
    the [duration_ms] of the remembered track ([0] when it has none): the
    answer carries [early_switch_suppressed: true] exactly when the
    remembered track is not near its end and the new one is young.  It is
    then the remembered state ([item], [is_playing], [progress_ms],
    [timestamp], [accepted_at], [source_status]) with the request's
    [server_now], and the store is left alone.  Otherwise the sample is
    accepted: the answer is the sample's [item], [is_playing], [progress_ms]
    and [timestamp] with [accepted_at] the request's clock reading, and that
    state is remembered.  [Spec.nearEnd] and [Spec.newIsYoung] are the
    specification's definitions. *)
Theorem early_switch_suppression_rule req now r tok sample last w trackDurationMs :
  stable_sample req now r tok sample →
  lastByToken w !! tok = Some last →
  ¬ Sample.timestamp sample + 1000 < Entry.timestamp last →
  truthy (Entry.item last) = true →
  truthy (Sample.item sample) = true →
  strict_eq (get_or_undefined (Entry.item last) "id")
            (get_or_undefined (Sample.item sample) "id") = false →
  get_or_undefined (Entry.item last) "duration_ms" = JNum trackDurationMs
  ∨ (get_or_undefined (Entry.item last) "duration_ms" = JUndefined ∧ trackDurationMs = 0) →
  Entry.accepted_at last ≠ 0 →
  let suppress :=
    ¬ Spec.nearEnd (Entry.progress_ms last) (Entry.accepted_at last) trackDurationMs
        (Entry.is_playing last) now
    ∧ Spec.newIsYoung (Sample.progress_ms sample) in
  let out := now_playing req now r w in
  ∃ answer,
    out.1 = Responded {| status := 200; no_store := true; json := answer |}
    ∧ (answer !! "early_switch_suppressed" = Some (JBool true) ↔ suppress)
    ∧ answer !! "server_now" = Some (JNum now)
    ∧ answer !! "stale_guard" = None
    ∧ (suppress →
         answer !! "item" = Some (Entry.item last)
         ∧ answer !! "is_playing" = Some (JBool (Entry.is_playing last))
         ∧ answer !! "progress_ms" = Some (JNum (Entry.progress_ms last))
         ∧ answer !! "timestamp" = Some (JNum (Entry.timestamp last))
         ∧ answer !! "accepted_at" = Some (JNum (Entry.accepted_at last))
         ∧ answer !! "source_status" = Some (JNum (Entry.source_status last))
         ∧ (∀ k, k ∉ ["item"; "is_playing"; "progress_ms"; "timestamp"; "server_now";
                      "accepted_at"; "source_status"; "early_switch_suppressed"] →
                 answer !! k = None)
         ∧ lastByToken out.2 !! tok = Some last
         ∧ lastByToken out.2 = lastByToken w
         ∧ filter is_write (effects out.2) = filter is_write (effects w))
    ∧ (¬ suppress →
         let state := {| Entry.item := Sample.item sample;
                         Entry.is_playing := Sample.is_playing sample;
                         Entry.progress_ms := Sample.progress_ms sample;
                         Entry.timestamp := Sample.timestamp sample;
                         Entry.server_now := now;
                         Entry.accepted_at := now;
                         Entry.source_status := 200 |} in
         answer !! "item" = Some (Sample.item sample)
         ∧ answer !! "is_playing" = Some (JBool (Sample.is_playing sample))
         ∧ answer !! "progress_ms" = Some (JNum (Sample.progress_ms sample))
         ∧ answer !! "timestamp" = Some (JNum (Sample.timestamp sample))
         ∧ answer !! "accepted_at" = Some (JNum now)
         ∧ answer !! "source_status" = Some (JNum 200)
         ∧ (∀ k, k ∉ ["item"; "is_playing"; "progress_ms"; "timestamp"; "server_now";
                      "accepted_at"; "source_status"] →
                 answer !! k = None)
         ∧ lastByToken out.2 !! tok = Some state
         ∧ lastByToken out.2 = <[tok := state]> (lastByToken w)
         ∧ filter is_write (effects out.2)
           = StoreSet tok now state :: filter is_write (effects w)).
Proof.
  intros Hs Hlast Hfresh Hl Hn Hid Hdur Hacc suppress out. subst suppress out.
  rewrite (stable_mode_sample _ _ _ _ _ _ Hs), Hlast.
  unfold stale.
  destruct (Z.ltb_spec (Sample.timestamp sample + 1000) (Entry.timestamp last)) as [Hlt | _];
    [lia |].
  unfold track_changed. rewrite Hl, Hn, Hid. simpl.
  pose proof (nearEnd_spec last now Hacc) as Hne.
  unfold spec_nearEnd in Hne. rewrite (prevDuration_read last trackDurationMs Hl Hdur) in Hne.
  unfold Spec.newIsYoung, newIsYoung.
  destruct (reserve_lookups last now "early_switch_suppressed")
    as (K1 & K2 & K3 & K4 & K5 & K6 & K7 & K8 & K9); [unlisted |].
  destruct (accepted_lookups sample now) as (A1 & A2 & A3 & A4 & A5 & A6 & A7 & A8).
  assert (Hdecide :
    negb (nearEnd last now) && (Sample.progress_ms sample <? 1200) = true
    ↔ ¬ Spec.nearEnd (Entry.progress_ms last) (Entry.accepted_at last) trackDurationMs
          (Entry.is_playing last) now
      ∧ Sample.progress_ms sample < 1200).
  { rewrite andb_true_iff, negb_true_iff, Z.ltb_lt.
    destruct (nearEnd last now).
    - split; [intros [Hn' _]; discriminate |].
      intros [Hn' _]. exfalso. apply Hn', Hne. reflexivity.
    - split; intros [_ Hy]; (split; [| exact Hy]); [| reflexivity].
      intros Hn'. apply Hne in Hn'. discriminate. }
  destruct (negb (nearEnd last now) && (Sample.progress_ms sample <? 1200)) eqn:Hb.
  - assert (Hsup := proj1 Hdecide eq_refl).
    exists (reserve last now "early_switch_suppressed").
    split; [reflexivity |].
    split; [split; [intros _; exact Hsup | intros _; exact K8] |].
    split; [exact K7 |].
    split; [apply K9; unlisted |].
    split.
    + intros _. do 7 (split; [assumption |]).
      split; [exact Hlast |]. split; reflexivity.
    + intros Hno. exfalso. exact (Hno Hsup).
  - assert (Hno : ¬ (¬ Spec.nearEnd (Entry.progress_ms last) (Entry.accepted_at last)
                        trackDurationMs (Entry.is_playing last) now
                     ∧ Sample.progress_ms sample < 1200)).
    { intros H. apply Hdecide in H. discriminate. }
    exists (Entry.props (accepted sample now)).
    split; [reflexivity |].
    split.
    { split; [| intros H; exfalso; exact (Hno H)].
      rewrite A8 by unlisted. discriminate. }
    split; [exact A5 |].
    split; [apply A8; unlisted |].
    split.
    + intros H. exfalso. exact (Hno H).
    + intros _.
      do 7 (split; [assumption |]).
      split; [apply lookup_insert_eq |]. split; reflexivity.
Qed.

(** The two boundary cases of the specification, on a 200000 ms track.  At
    50% the switch to another track with [progress_ms = 500] is suppressed:
    the answer is track [A] at 100000 ms, and [A] stays remembered.  At 92.5%
    it is accepted: the answer is track [B] at 500 ms, and [B] is
    remembered. *)
Lemma early_switch_suppression_rule_witness :
  let now := 1700000000000 in
  let reply := ok (playing (track "B" 180000) 500 100500) in
  let half := previous (track "A" 200000) 100000 100000 now in
  let late := previous (track "A" 200000) 185000 100000 now in
  let suppressed := now_playing (stable_request "tok") now reply (remembering "tok" half) in
  let switched := now_playing (stable_request "tok") now reply (remembering "tok" late) in
  (∃ answer,
      suppressed.1 = Responded {| status := 200; no_store := true; json := answer |}
      ∧ answer !! "early_switch_suppressed" = Some (JBool true)
      ∧ answer !! "item" = Some (track "A" 200000)
      ∧ answer !! "progress_ms" = Some (JNum 100000)
      ∧ lastByToken suppressed.2 !! "tok" = Some half)
  ∧ (∃ answer,
      switched.1 = Responded {| status := 200; no_store := true; json := answer |}
      ∧ answer !! "early_switch_suppressed" = None
      ∧ answer !! "item" = Some (track "B" 180000)
      ∧ answer !! "progress_ms" = Some (JNum 500)
      ∧ lastByToken switched.2 !! "tok"
        = Some {| Entry.item := track "B" 180000;
                  Entry.is_playing := true;
                  Entry.progress_ms := 500;
                  Entry.timestamp := 100500;
                  Entry.server_now := now;
                  Entry.accepted_at := now;
                  Entry.source_status := 200 |}).
Proof.
  split.
  - destruct (early_switch_suppression_rule (stable_request "tok") 1700000000000
                (ok (playing (track "B" 180000) 500 100500)) "tok"
                (sampled (track "B" 180000) 500 100500)
                (previous (track "A" 200000) 100000 100000 1700000000000)
                (remembering "tok" (previous (track "A" 200000) 100000 100000 1700000000000))
                200000)
      as (answer & Hout & Hflag & _ & _ & Hkeep & _).
    + repeat (split; [vm_compute; reflexivity |]). vm_compute; reflexivity.
    + vm_compute; reflexivity.
    + simpl; lia.
    + reflexivity.
    + reflexivity.
    + vm_compute; reflexivity.
    + left. vm_compute; reflexivity.
    + simpl; lia.
    + assert (Hsup : ¬ Spec.nearEnd 100000 1700000000000 200000 true 1700000000000
                     ∧ Spec.newIsYoung 500).
      { split.
        - intros [_ H]. apply Qle_bool_iff in H. vm_compute in H. discriminate.
        - unfold Spec.newIsYoung; lia. }
      destruct (Hkeep Hsup) as (H1 & _ & H3 & _ & _ & _ & _ & H8 & _).
      exists answer. split; [exact Hout |]. split; [exact (proj2 Hflag Hsup) |].
      split; [exact H1 |]. split; [exact H3 | exact H8].
  - destruct (early_switch_suppression_rule (stable_request "tok") 1700000000000
                (ok (playing (track "B" 180000) 500 100500)) "tok"
                (sampled (track "B" 180000) 500 100500)
                (previous (track "A" 200000) 185000 100000 1700000000000)
                (remembering "tok" (previous (track "A" 200000) 185000 100000 1700000000000))
                200000)
      as (answer & Hout & _ & _ & _ & _ & Haccept).
    + repeat (split; [vm_compute; reflexivity |]). vm_compute; reflexivity.
    + vm_compute; reflexivity.
    + simpl; lia.
    + reflexivity.
    + reflexivity.
    + vm_compute; reflexivity.
    + left. vm_compute; reflexivity.
    + simpl; lia.
    + assert (Hno : ¬ (¬ Spec.nearEnd 185000 1700000000000 200000 true 1700000000000
                       ∧ Spec.newIsYoung 500)).
      { intros [H _]. apply H. split.
        - vm_compute; reflexivity.
        - apply Qle_bool_iff. vm_compute; reflexivity. }
      destruct (Haccept Hno) as (H1 & _ & H3 & _ & _ & _ & H7 & H8 & _).
      exists answer. split; [exact Hout |].
      split; [apply H7; unlisted |].
      split; [exact H1 |]. split; [exact H3 | exact H8].
Defined.

(** A [duration_ms] that came as a string is read as [Number] reads it:
    with ["2e5"] the remembered track is 200000 ms long, so at 92.5% the
    switch is accepted and at 50% it is suppressed. *)
Example string_duration_is_read :
  let now := 1700000000000 in
  let item := JObj (<["id" := JStr "A"]> (<["duration_ms" := JStr "2e5"]> ∅)) in
  let reply := ok (playing (track "B" 180000) 500 100500) in
  let half := previous item 100000 100000 now in
  let late := previous item 185000 100000 now in
  prevDuration late = 200000
  ∧ nearEnd half now = false
  ∧ nearEnd late now = true
  ∧ (now_playing (stable_request "tok") now reply (remembering "tok" half)).1
    = respond 200 (reserve half now "early_switch_suppressed")
  ∧ (now_playing (stable_request "tok") now reply (remembering "tok" late)).1
    = respond 200 (Entry.props (accepted (sampled (track "B" 180000) 500 100500) now)).
Proof. repeat split; vm_compute; reflexivity. Qed.

(** A track is duration-less when its [duration_ms] is absent or [0]. *)
Lemma durationless_prevDuration (last : Entry.t) :
  get_or_undefined (Entry.item last) "duration_ms" = JUndefined
  ∨ get_or_undefined (Entry.item last) "duration_ms" = JNum 0 →
  prevDuration last = 0.
Proof.
  unfold prevDuration. intros [H | H]; rewrite H; destruct (truthy (Entry.item last)); reflexivity.
Qed.

(** C5, as the code has it.  When the remembered track has no duration
    ([duration_ms] absent or [0]), [nearEnd] never holds, and a sample that
    reaches the early-switch guard with a different track id is suppressed
    exactly when its [progress_ms] is below 1200 and accepted exactly when it
    is 1200 or more. *)
Theorem durationless_previous_track req now r tok sample last w :
  stable_sample req now r tok sample →
  lastByToken w !! tok = Some last →
  ¬ Sample.timestamp sample + 1000 < Entry.timestamp last →
  truthy (Entry.item last) = true →
  truthy (Sample.item sample) = true →
  strict_eq (get_or_undefined (Entry.item last) "id")
            (get_or_undefined (Sample.item sample) "id") = false →
  get_or_undefined (Entry.item last) "duration_ms" = JUndefined
  ∨ get_or_undefined (Entry.item last) "duration_ms" = JNum 0 →
  nearEnd last now = false
  ∧ ¬ spec_nearEnd last now
  ∧ (now_playing req now r w = keeps "early_switch_suppressed" tok now last w
       ↔ Sample.progress_ms sample < 1200)
  ∧ (now_playing req now r w = accepts tok now sample w
       ↔ 1200 ≤ Sample.progress_ms sample).
Proof.
  intros Hs Hlast Hfresh Hl Hn Hid Hdur.
  apply durationless_prevDuration in Hdur.
  assert (Hne : nearEnd last now = false) by (apply nearEnd_needs_duration; lia).
  split; [exact Hne |]. split.
  { unfold spec_nearEnd, Spec.nearEnd. intros [Hd _]. lia. }
  rewrite (stable_mode_sample _ _ _ _ _ _ Hs), Hlast.
  unfold stale. destruct (Z.ltb_spec (Sample.timestamp sample + 1000) (Entry.timestamp last));
    [lia |].
  unfold track_changed. rewrite Hl, Hn, Hid, Hne. simpl.
  unfold newIsYoung.
  destruct (Z.ltb_spec (Sample.progress_ms sample) 1200); split; split; intros H1;
    try reflexivity; try lia.
  - exfalso. exact (keeps_not_accepts _ _ _ _ _ _ H1).
  - exfalso. exact (keeps_not_accepts _ _ _ _ _ _ (eq_sym H1)).
Qed.

Lemma durationless_previous_track_witness :
  let now := 1700000000000 in
  let last := previous (track_without_duration "A") 100000 100000 now in
  let sample := sampled (track "B" 180000) 1500 100500 in
  now_playing (stable_request "tok") now (ok (playing (track "B" 180000) 1500 100500))
      (remembering "tok" last)
    = accepts "tok" now sample (remembering "tok" last).
Proof.
  apply (durationless_previous_track (stable_request "tok") 1700000000000
           (ok (playing (track "B" 180000) 1500 100500)) "tok"
           (sampled (track "B" 180000) 1500 100500)
           (previous (track_without_duration "A") 100000 100000 1700000000000)).
  - repeat (split; [vm_compute; reflexivity |]). vm_compute; reflexivity.
  - vm_compute; reflexivity.
  - simpl; lia.
  - reflexivity.
  - reflexivity.
  - vm_compute; reflexivity.
  - left. vm_compute; reflexivity.
  - simpl; lia.
Defined.

(** The claim of C5 fails: away from a track without [duration_ms], a switch
    to another track with [progress_ms = 500] is suppressed, not accepted. *)
Lemma durationless_switch_is_suppressed :
  let now := 1700000000000 in
  let last := previous (track_without_duration "A") 100000 100000 now in
  let out := now_playing (stable_request "tok") now
               (ok (playing (track "B" 180000) 500 100500)) (remembering "tok" last) in
  get_or_undefined (Entry.item last) "duration_ms" = JUndefined
  ∧ out.1 = respond 200 (reserve last now "early_switch_suppressed")
  ∧ reserve last now "early_switch_suppressed" !! "early_switch_suppressed" = Some (JBool true)
  ∧ lastByToken out.2 !! "tok" = Some last.
Proof.
  repeat split; vm_compute; reflexivity.
Qed.

(** ** The normalizer *)

(** C6, as the code has it.  For a 200 reply that the handler normalizes,
    the sample's [progress_ms] is [body.progress_ms] when that is a number,
    of either sign, and [0] when it is anything else; it agrees with the
    specification's rule whenever it is not negative.  The guards do not
    clamp either: an accepted sample is served and stored with that same
    [progress_ms]. *)
Theorem normalizer_keeps_numeric_progress req now r tok sample w :
  stable_sample req now r tok sample →
  let reported := get_or_undefined (body r) "progress_ms" in
  (∀ n, reported = JNum n → Sample.progress_ms sample = n)
  ∧ (typeof reported ≠ TyNumber → Sample.progress_ms sample = 0)
  ∧ (0 ≤ Sample.progress_ms sample →
       Sample.progress_ms sample = Spec.progress_zeroing_negatives reported)
  ∧ (now_playing req now r w = accepts tok now sample w →
       Entry.props (accepted sample now) !! "progress_ms"
         = Some (JNum (Sample.progress_ms sample))
       ∧ Entry.progress_ms <$> (lastByToken (now_playing req now r w).2 !! tok)
         = Some (Sample.progress_ms sample)).
Proof.
  intros (_ & _ & _ & _ & Hobj & Hs) reported. subst reported.
  assert (Hp : Sample.progress_ms sample
               = number_or (get_or_undefined (body r) "progress_ms") 0).
  { unfold make_sample, get_or_undefined in *.
    destruct (body r); simpl in *; try discriminate; injection Hs as <-; reflexivity. }
  split; [| split; [| split]].
  - intros n Hn. rewrite Hp, Hn. reflexivity.
  - intros Hty. rewrite Hp.
    destruct (get_or_undefined (body r) "progress_ms"); simpl in *; congruence.
  - rewrite Hp. destruct (get_or_undefined (body r) "progress_ms"); simpl; try reflexivity.
    intros Hn. destruct (Z.leb_spec 0 n); [reflexivity | lia].
  - intros ->. split.
    + unfold Entry.props. rewrite lookup_insert_ne by discriminate.
      rewrite lookup_insert_ne by discriminate. rewrite lookup_insert_eq. reflexivity.
    + unfold accepts, store_set. simpl. rewrite lookup_insert_eq. reflexivity.
Qed.

Lemma normalizer_keeps_numeric_progress_witness :
  let now := 1700000000000 in
  let r := ok (playing (track "B" 180000) 500 100500) in
  let sample := sampled (track "B" 180000) 500 100500 in
  stable_sample (stable_request "tok") now r "tok" sample
  ∧ Sample.progress_ms sample = 500
  ∧ Entry.progress_ms
      <$> (lastByToken (now_playing (stable_request "tok") now r initial).2 !! "tok")
    = Some (Sample.progress_ms sample).
Proof.
  assert (Hs : stable_sample (stable_request "tok") 1700000000000
                 (ok (playing (track "B" 180000) 500 100500)) "tok"
                 (sampled (track "B" 180000) 500 100500)).
  { repeat (split; [vm_compute; reflexivity |]). vm_compute; reflexivity. }
  destruct (normalizer_keeps_numeric_progress _ _ _ _ _ initial Hs) as (Hn & _ & _ & Hacc).
  split; [exact Hs |]. split.
  - apply Hn. vm_compute; reflexivity.
  - apply Hacc. vm_compute; reflexivity.
Defined.

(** The claim of C6 fails: a negative [body.progress_ms] is not zeroed.  The
    specification's rule gives [0] for [-5]; the handler's sample, its answer
    and the stored state all carry [-5]. *)
Lemma negative_progress_is_kept :
  let now := 1700000000000 in
  let body := playing (track "B" 180000) (-5) 100500 in
  let out := now_playing (stable_request "tok") now (ok body) initial in
  Spec.progress_zeroing_negatives (JNum (-5)) = 0
  ∧ make_sample body now = Ok (sampled (track "B" 180000) (-5) 100500)
  ∧ out = accepts "tok" now (sampled (track "B" 180000) (-5) 100500) initial
  ∧ Entry.props (accepted (sampled (track "B" 180000) (-5) 100500) now) !! "progress_ms"
    = Some (JNum (-5))
  ∧ Entry.progress_ms <$> (lastByToken out.2 !! "tok") = Some (-5).
Proof.
  repeat split; vm_compute; reflexivity.
Qed.

(** ** Pass-through mode *)

(** C7. A request without [stable=1] neither reads nor writes the store: the
    store and the list of writes are as before, and the answer is the same
    whatever the store holds.  When the upstream answers 200 with an object,
    the answer is 200 with that object and [server_now] set: every other
    property is the upstream's, and nothing else is added. *)
Theorem pass_through_bypass req now r w :
  useStable req = false →
  let out := now_playing req now r w in
  lastByToken out.2 = lastByToken w
  ∧ filter is_write (effects out.2) = filter is_write (effects w)
  ∧ (∀ w', (now_playing req now r w').1 = out.1)
  ∧ (∀ tok m,
       present (access_token req) = Some tok →
       error r = false → upstream_status r = 200 → body r = JObj m →
       let answer := <["server_now" := JNum now]> m in
       out.1 = Responded {| status := 200; no_store := true; json := answer |}
       ∧ answer !! "server_now" = Some (JNum now)
       ∧ (∀ k, k ≠ "server_now" → answer !! k = m !! k)
       ∧ answer !! "early_switch_suppressed" = m !! "early_switch_suppressed"
       ∧ answer !! "stale_guard" = m !! "stale_guard").
Proof.
  intros Hst out. subst out. unfold now_playing, callback. rewrite Hst. simpl.
  destruct (present (access_token req)) as [tok |]; simpl.
  - split; [reflexivity |]. split; [reflexivity |]. split; [reflexivity |].
    intros tok' m _ Herr H200 Hbody.
    unfold pass_through. rewrite Herr, H200, Hbody. simpl.
    split; [reflexivity |]. split; [apply lookup_insert_eq |].
    split; [| split]; [intros k Hk | |]; rewrite lookup_insert_ne by congruence; reflexivity.
  - split; [reflexivity |]. split; [reflexivity |]. split; [reflexivity |].
    intros tok' m Htok. discriminate.
Qed.

(** Two consecutive pass-through polls that report different tracks, each
    with [progress_ms] below 1200: both payloads come back with only
    [server_now] set, and the store stays empty. *)
Lemma pass_through_bypass_witness :
  let first := playing (track "A" 200000) 500 100000 in
  let second := playing (track "B" 180000) 700 101000 in
  let o1 := now_playing (plain_request "tok") 1700000000000 (ok first) initial in
  let o2 := now_playing (plain_request "tok") 1700000001000 (ok second) o1.2 in
  o1.1 = respond 200 (<["server_now" := JNum 1700000000000]> (spread first))
  ∧ o2.1 = respond 200 (<["server_now" := JNum 1700000001000]> (spread second))
  ∧ lastByToken o2.2 = ∅
  ∧ filter is_write (effects o2.2) = [].
Proof.
  pose (first := playing (track "A" 200000) 500 100000).
  pose (second := playing (track "B" 180000) 700 101000).
  pose (o1 := now_playing (plain_request "tok") 1700000000000 (ok first) initial).
  destruct (pass_through_bypass (plain_request "tok") 1700000000000 (ok first) initial eq_refl)
    as (Hs1 & Hw1 & _ & H1).
  destruct (pass_through_bypass (plain_request "tok") 1700000001000 (ok second) o1.2 eq_refl)
    as (Hs2 & Hw2 & _ & H2).
  split; [| split; [| split]].
  - exact (proj1 (H1 "tok" _ eq_refl eq_refl eq_refl eq_refl)).
  - exact (proj1 (H2 "tok" _ eq_refl eq_refl eq_refl eq_refl)).
  - etransitivity; [exact Hs2 | exact Hs1].
  - etransitivity; [exact Hw2 | exact Hw1].
Defined.

(** ** Status codes *)

Lemma present_None (p : option string) :
  present p = None ↔ p = None ∨ p = Some EmptyString.
Proof.
  unfold present. destruct p as [s |].
  - destruct (String.eqb_spec s EmptyString) as [-> | Hne].
    + split; [right; reflexivity | reflexivity].
    + split; [discriminate | intros [H | H]; congruence].
  - split; [left; reflexivity | reflexivity].
Qed.

Lemma nothingPlaying_lookup now st :
  nothingPlaying now st !! "item" = Some JNull
  ∧ nothingPlaying now st !! "is_playing" = Some (JBool false)
  ∧ nothingPlaying now st !! "progress_ms" = Some (JNum 0)
  ∧ nothingPlaying now st !! "source_status" = Some (JNum st).
Proof.
  unfold nothingPlaying.
  repeat split; repeat (rewrite lookup_insert_ne by discriminate); apply lookup_insert_eq.
Qed.

Lemma empty_sample_nothingPlaying now st : empty_sample (nothingPlaying now st) st.
Proof. apply nothingPlaying_lookup. Qed.

Lemma empty_sample_insert j st k v :
  k ≠ "item" → k ≠ "is_playing" → k ≠ "progress_ms" → k ≠ "source_status" →
  empty_sample j st → empty_sample (<[k := v]> j) st.
Proof.
  intros H1 H2 H3 H4 (A & B & C & D). unfold empty_sample.
  rewrite !lookup_insert_ne by assumption. auto.
Qed.

(** C3, as the code has it.  The answer is 400 with
    [{ error: "Missing access token" }], and the upstream is not contacted,
    exactly when [access_token] is absent or empty.  Otherwise the upstream is
    contacted and every answer has status 200, whatever status the upstream
    reported; on a transport error, a 204, a status other than 200 or a body
    whose [typeof] is not ['object'], the answer carries the canonical empty
    sample and the marker [source_status] (and [error: 'spotify_non_200'] for
    the last two). *)
Theorem status_code_policy req now r w :
  let out := now_playing req now r w in
  (access_token req = None ∨ access_token req = Some EmptyString →
     out.1 = Responded {| status := 400; no_store := true;
                          json := {[ "error" := JStr "Missing access token" ]} |}
     ∧ out.2 = w)
  ∧ (∀ answer, out.1 = Responded answer →
       status answer = 400 ∨ status answer = 200)
  ∧ (∀ answer, out.1 = Responded answer →
       (status answer = 400 ↔ access_token req = None ∨ access_token req = Some EmptyString))
  ∧ (∀ tok, present (access_token req) = Some tok →
       UpstreamGet tok ∈ effects out.2
       ∧ (error r = true ∨ upstream_status r = 204 ∨ upstream_status r ≠ 200
          ∨ is_object_tag (typeof (body r)) = false →
            ∃ j, out.1 = Responded {| status := 200; no_store := true; json := j |}
                 ∧ empty_sample j (upstream_status r)
                 ∧ (error r = false → upstream_status r ≠ 204 →
                      j !! "error" = Some (JStr "spotify_non_200")))).
Proof.
  intros out. subst out. unfold now_playing.
  pose proof (present_None (access_token req)) as Hnone.
  destruct (present (access_token req)) as [tok |] eqn:Htok.
  - assert (Hno : ¬ (access_token req = None ∨ access_token req = Some EmptyString)).
    { intros H. apply Hnone in H. discriminate. }
    assert (Hcases :
      ((callback tok (useStable req) now r (request_get tok w)).1 = Threw
       ∨ ∃ j, (callback tok (useStable req) now r (request_get tok w)).1 = respond 200 j)
      ∧ UpstreamGet tok ∈ effects (callback tok (useStable req) now r (request_get tok w)).2
      ∧ (error r = true ∨ upstream_status r = 204 ∨ upstream_status r ≠ 200
          ∨ is_object_tag (typeof (body r)) = false →
            ∃ j, (callback tok (useStable req) now r (request_get tok w)).1 = respond 200 j
                 ∧ empty_sample j (upstream_status r)
                 ∧ (error r = false → upstream_status r ≠ 204 →
                      j !! "error" = Some (JStr "spotify_non_200")))).
    { unfold callback, pass_through, stable_mode.
      destruct (useStable req); simpl;
        destruct (error r) eqn:Herr; simpl.
      1, 3: (split; [right; eauto |]; split; [left |];
             intros _; eexists; split; [reflexivity |]; split;
             [apply empty_sample_nothingPlaying | discriminate]).
      all: destruct (Z.eqb_spec (upstream_status r) 204) as [E204 | N204]; simpl.
      1: { split; [right; eauto |]. split; [right; left |].
           intros _. eexists. split; [reflexivity |]. split; [| contradiction].
           rewrite E204. apply empty_sample_nothingPlaying. }
      2: { split; [right; eauto |]. split; [left |].
           intros _. eexists. split; [reflexivity |]. split; [| contradiction].
           rewrite E204. unfold empty_sample, nothingPlaying.
           repeat split;
             repeat first [rewrite lookup_insert_eq | rewrite lookup_insert_ne by discriminate];
             reflexivity. }
      all: destruct (Z.eqb_spec (upstream_status r) 200) as [E200 | N200]; simpl.
      all: destruct (is_object_tag (typeof (body r))) eqn:Hobj; simpl.
      all: try (split; [right; eauto |]; split; [left |];
                intros _; eexists; split; [reflexivity |]; split;
                [apply empty_sample_insert; try discriminate;
                 apply empty_sample_nothingPlaying
                | intros _ _; apply lookup_insert_eq]).
      - destruct (make_sample (body r) now) as [sample |]; simpl.
        + destruct (lastByToken w !! tok) as [last |]; simpl.
          * destruct (stale last sample); simpl;
              [| destruct (track_changed last sample
                           && (negb (nearEnd last now) && newIsYoung sample)); simpl].
            all: split; [right; eauto |].
            all: split; [first [left | right; left] |].
            all: intros [H | [H | [H | H]]]; congruence.
          * split; [right; eauto |]. split; [right; left |].
            intros [H | [H | [H | H]]]; congruence.
        + split; [left; reflexivity |]. split; [left |].
          intros [H | [H | [H | H]]]; congruence.
      - split; [right; eauto |]. split; [left |].
        intros [H | [H | [H | H]]]; congruence. }
    destruct Hcases as (Hout & Hget & Hempty).
    split; [intros H; contradiction |].
    split; [| split].
    + intros answer Ha. destruct Hout as [Ht | [j Hj]]; [congruence |].
      rewrite Hj in Ha. injection Ha as <-. right. reflexivity.
    + intros answer Ha. destruct Hout as [Ht | [j Hj]]; [congruence |].
      rewrite Hj in Ha. injection Ha as <-. simpl. split; [discriminate | contradiction].
    + intros tok' Htok'. injection Htok' as <-. split; [exact Hget | exact Hempty].
  - simpl. split; [intros _; split; reflexivity |].
    split; [| split].
    + intros answer Ha. injection Ha as <-. left. reflexivity.
    + intros answer Ha. injection Ha as <-. simpl.
      split; [intros _; apply Hnone; reflexivity | reflexivity].
    + intros tok' Htok'. discriminate.
Qed.

(** A 200 reply whose body is JSON [null] passes the [typeof] test; in stable
    mode reading [body.item] then throws and no answer is sent, while
    pass-through mode answers [{ server_now }]. *)
Lemma null_body_throws_in_stable_mode tok now w :
  tok ≠ EmptyString →
  now_playing (stable_request tok) now (ok JNull) w = (Threw, request_get tok w)
  ∧ now_playing (plain_request tok) now (ok JNull) w
    = (respond 200 (<["server_now" := JNum now]> ∅), request_get tok w).
Proof.
  intros Htok. unfold now_playing, stable_request, plain_request, present. simpl.
  destruct (String.eqb_spec tok EmptyString) as [E | _]; [contradiction |].
  split; reflexivity.
Qed.

(** The claim of C3 fails where it says "exactly when absent": a request
    whose [access_token] is present but empty is answered 400 too. *)
Lemma empty_access_token_is_refused :
  let req := {| access_token := Some EmptyString; stable := Some "1" |} in
  let out := now_playing req 1700000000000
               (ok (playing (track "A" 200000) 500 100000)) initial in
  access_token req ≠ None
  ∧ out.1 = Responded {| status := 400; no_store := true;
                         json := {[ "error" := JStr "Missing access token" ]} |}
  ∧ effects out.2 = [].
Proof.
  split; [discriminate |]. split; reflexivity.
Qed.

(** ** Writes of the store *)

(** Every stable-mode request ends in one of the ways of [stable_outcome]. *)
Lemma now_playing_stable req now r tok w :
  present (access_token req) = Some tok →
  useStable req = true →
  stable_outcome req now r tok w (now_playing req now r w).
Proof.
  intros Htok Hst.
  unfold now_playing, callback. rewrite Htok, Hst. simpl. unfold stable_mode.
  destruct (error r) eqn:Herr; simpl.
  { apply ends_transport_error. exact Herr. }
  destruct (Z.eqb_spec (upstream_status r) 204) as [E204 | N204]; simpl.
  { rewrite E204. apply ends_no_content; assumption. }
  destruct (Z.eqb_spec (upstream_status r) 200) as [E200 | N200]; simpl.
  2: { apply ends_non_200; auto. }
  destruct (is_object_tag (typeof (body r))) eqn:Hobj; simpl.
  2: { apply ends_non_200; auto. }
  destruct (make_sample (body r) now) as [sample |] eqn:Hs; simpl.
  2: { apply ends_throwing; assumption. }
  assert (Hss : stable_sample req now r tok sample) by (repeat split; assumption).
  destruct (lastByToken w !! tok) as [last |] eqn:Hlast.
  2: { apply (ends_accepted _ _ _ _ _ sample Hss). intros last H. congruence. }
  destruct (stale last sample) eqn:Hstale; simpl.
  { apply (ends_stale _ _ _ _ _ sample last); assumption. }
  destruct (track_changed last sample && (negb (nearEnd last now) && newIsYoung sample))
    eqn:Hguard; simpl.
  - apply andb_true_iff in Hguard as [Hchanged Hrest].
    apply andb_true_iff in Hrest as [Hnear Hyoung]. apply negb_true_iff in Hnear.
    apply (ends_suppressed _ _ _ _ _ sample last); assumption.
  - apply (ends_accepted _ _ _ _ _ sample Hss). intros last' H.
    assert (last' = last) as -> by congruence. auto.
Qed.

Lemma props_has_no_flag (e : Entry.t) (flag : string) :
  flag = "stale_guard" ∨ flag = "early_switch_suppressed" →
  Entry.props e !! flag = None.
Proof.
  intros [-> | ->]; unfold Entry.props;
    repeat (rewrite lookup_insert_ne by discriminate); apply lookup_empty.
Qed.

Lemma nothingPlaying_has_no_flag now st (flag : string) :
  flag = "stale_guard" ∨ flag = "early_switch_suppressed" →
  nothingPlaying now st !! flag = None
  ∧ <["error" := JStr "spotify_non_200"]> (nothingPlaying now st) !! flag = None.
Proof.
  intros [-> | ->]; unfold nothingPlaying; split;
    repeat (rewrite lookup_insert_ne by discriminate); apply lookup_empty.
Qed.

Lemma reserve_flag (last : Entry.t) now (f flag : string) :
  f = "stale_guard" ∨ f = "early_switch_suppressed" →
  flag = "stale_guard" ∨ flag = "early_switch_suppressed" →
  reserve last now f !! flag = Some (JBool true) → f = flag.
Proof.
  intros Hf Hflag. unfold reserve.
  destruct (decide (f = flag)) as [-> | Hne]; [reflexivity |].
  rewrite lookup_insert_ne by exact Hne.
  rewrite lookup_insert_ne by (destruct Hflag as [-> | ->]; discriminate).
  rewrite props_has_no_flag by exact Hflag. discriminate.
Qed.

(** C8, as the code has it.  A stable-mode request writes the store only when
    it accepts a sample or the upstream answers 204, and then only under its
    own credential.  An answer flagged [stale_guard] or
    [early_switch_suppressed] leaves the store as it was and is the
    remembered state with [server_now] refreshed and the flag added.  A
    transport error, and a non-200 or non-object reply, leave the store as it
    was too, but answer with the canonical empty sample, not with the
    remembered state. *)
Theorem store_written_only_on_accept req now r tok w :
  present (access_token req) = Some tok →
  useStable req = true →
  let out := now_playing req now r w in
  (out.2 = request_get tok w
   ∨ (error r = false ∧ upstream_status r = 204
      ∧ out.2 = store_set tok now (nothingPlaying_accepted now 204) (request_get tok w))
   ∨ (∃ sample, stable_sample req now r tok sample ∧ out = accepts tok now sample w))
  ∧ (∀ flag j,
       flag = "stale_guard" ∨ flag = "early_switch_suppressed" →
       out.1 = respond 200 j → j !! flag = Some (JBool true) →
       ∃ last, lastByToken w !! tok = Some last
               ∧ out = keeps flag tok now last w
               ∧ lastByToken out.2 = lastByToken w)
  ∧ (error r = true
     ∨ (upstream_status r ≠ 204
        ∧ (upstream_status r ≠ 200 ∨ is_object_tag (typeof (body r)) = false)) →
       out.2 = request_get tok w
       ∧ lastByToken out.2 = lastByToken w
       ∧ ∃ j, out.1 = respond 200 j ∧ empty_sample j (upstream_status r)).
Proof.
  intros Htok Hst out. subst out.
  pose proof (now_playing_stable req now r tok w Htok Hst) as Hout.
  set (out := now_playing req now r w) in *. clearbody out.
  destruct Hout as [Herr | Herr H204 | Herr N204 Hbad | Herr H200 Hobj Hthrow
                   | sample last Hs Hlast Hstale
                   | sample last Hs Hlast Hstale Hchanged Hnear Hyoung
                   | sample Hs Hguards]; simpl.
  - split; [left; reflexivity |]. split.
    + intros flag j Hflag Hj Hlook. injection Hj as <-.
      rewrite (proj1 (nothingPlaying_has_no_flag _ _ _ Hflag)) in Hlook. discriminate.
    + intros _. split; [reflexivity |]. split; [reflexivity |].
      eexists. split; [reflexivity | apply empty_sample_nothingPlaying].
  - split; [right; left; auto |]. split.
    + intros flag j Hflag Hj Hlook. injection Hj as <-.
      rewrite (proj1 (nothingPlaying_has_no_flag _ _ _ Hflag)) in Hlook. discriminate.
    + intros [H | [H _]]; congruence.
  - split; [left; reflexivity |]. split.
    + intros flag j Hflag Hj Hlook. injection Hj as <-.
      rewrite (proj2 (nothingPlaying_has_no_flag _ _ _ Hflag)) in Hlook. discriminate.
    + intros _. split; [reflexivity |]. split; [reflexivity |].
      eexists. split; [reflexivity |].
      apply empty_sample_insert; try discriminate. apply empty_sample_nothingPlaying.
  - split; [left; reflexivity |]. split; [intros flag j _ Hj; discriminate |].
    intros [H | [_ [H | H]]]; congruence.
  - destruct Hs as (_ & _ & Herr & H200 & Hobj & _).
    split; [left; reflexivity |]. split.
    + intros flag j Hflag Hj Hlook. injection Hj as <-.
      apply reserve_flag in Hlook as <-; [| left; reflexivity | exact Hflag].
      exists last. auto.
    + intros [H | [_ [H | H]]]; congruence.
  - destruct Hs as (_ & _ & Herr & H200 & Hobj & _).
    split; [left; reflexivity |]. split.
    + intros flag j Hflag Hj Hlook. injection Hj as <-.
      apply reserve_flag in Hlook as <-; [| right; reflexivity | exact Hflag].
      exists last. auto.
    + intros [H | [_ [H | H]]]; congruence.
  - split; [right; right; exists sample; auto |].
    destruct Hs as (_ & _ & Herr & H200 & Hobj & _). split.
    + intros flag j Hflag Hj Hlook. injection Hj as <-.
      rewrite props_has_no_flag in Hlook by exact Hflag. discriminate.
    + intros [H | [_ [H | H]]]; congruence.
Qed.

Lemma store_written_only_on_accept_witness :
  let now := 1700000000000 in
  let last := previous (track "A" 200000) 100000 100000 now in
  let out := now_playing (stable_request "tok") now
               (ok (playing (track "B" 180000) 500 100500)) (remembering "tok" last) in
  out = keeps "early_switch_suppressed" "tok" now last (remembering "tok" last)
  ∧ lastByToken out.2 = lastByToken (remembering "tok" last).
Proof.
  destruct (store_written_only_on_accept (stable_request "tok") 1700000000000
              (ok (playing (track "B" 180000) 500 100500)) "tok"
              (remembering "tok" (previous (track "A" 200000) 100000 100000 1700000000000))
              eq_refl eq_refl) as (_ & Hflag & _).
  destruct (Hflag "early_switch_suppressed"
              (reserve (previous (track "A" 200000) 100000 100000 1700000000000)
                 1700000000000 "early_switch_suppressed"))
    as (last & Hlast & Hout & Hstore).
  - right; reflexivity.
  - vm_compute; reflexivity.
  - vm_compute; reflexivity.
  - assert (E : last = previous (track "A" 200000) 100000 100000 1700000000000).
    { vm_compute in Hlast. injection Hlast as <-. vm_compute. reflexivity. }
    subst last. split; [exact Hout | exact Hstore].
Defined.

(** The claim of C8 fails where it has the error outcomes re-serve the
    remembered state: on a transport error the answer is the empty sample
    ([item] null, [progress_ms] 0), while the remembered state, left in the
    store, names track A at 100000 ms. *)
Lemma transport_error_serves_empty_sample :
  let last := previous (track "A" 200000) 100000 100000 1700000000000 in
  let w := remembering "tok" last in
  let out := now_playing (stable_request "tok") 1700000001000 transport_error w in
  lastByToken w !! "tok" = Some last
  ∧ out.1 = respond 200 (nothingPlaying 1700000001000 500)
  ∧ nothingPlaying 1700000001000 500 !! "item" = Some JNull
  ∧ Entry.props last !! "item" = Some (track "A" 200000)
  ∧ nothingPlaying 1700000001000 500 !! "progress_ms" = Some (JNum 0)
  ∧ Entry.props last !! "progress_ms" = Some (JNum 100000)
  ∧ lastByToken out.2 = lastByToken w.
Proof.
  repeat split; vm_compute; reflexivity.
Qed.

(** ** Invariants of the store *)

(** What one request does to the world. *)
Lemma now_playing_world req now r w :
  let w' := (now_playing req now r w).2 in
  w' = w
  ∨ (∃ tok, present (access_token req) = Some tok ∧ w' = request_get tok w)
  ∨ (∃ tok, present (access_token req) = Some tok ∧ upstream_status r = 204
            ∧ w' = store_set tok now (nothingPlaying_accepted now 204) (request_get tok w))
  ∨ (∃ tok sample,
       stable_sample req now r tok sample
       ∧ (∀ last, lastByToken w !! tok = Some last → stale last sample = false)
       ∧ w' = store_set tok now (accepted sample now) (request_get tok w)).
Proof.
  intros w'. subst w'.
  destruct (present (access_token req)) as [tok |] eqn:Htok.
  2: { left. unfold now_playing. rewrite Htok. reflexivity. }
  destruct (useStable req) eqn:Hst.
  2: { right; left. exists tok. split; [reflexivity |].
       unfold now_playing, callback. rewrite Htok, Hst. reflexivity. }
  pose proof (now_playing_stable req now r tok w Htok Hst) as Hout.
  set (out := now_playing req now r w) in *. clearbody out.
  destruct Hout as [| | | | | | sample Hs Hguards]; simpl.
  1, 3, 4, 5, 6: right; left; exists tok; auto.
  - right; right; left. exists tok. auto.
  - right; right; right. exists tok, sample.
    split; [exact Hs |]. split; [| reflexivity].
    intros last Hlast. apply (Hguards last Hlast).
Qed.

Lemma cons_eq_app {A} (x y : A) (l newer older : list A) :
  x :: l = newer ++ y :: older →
  (newer = [] ∧ x = y ∧ l = older)
  ∨ (∃ newer', newer = x :: newer' ∧ l = newer' ++ y :: older).
Proof.
  destruct newer as [| z newer']; simpl; intros H; injection H as -> ->.
  - left. auto.
  - right. eauto.
Qed.

(** The store holds, under each key, the latest value written there. *)
Lemma store_is_last_write w :
  reachable w → ∀ key, lastByToken w !! key = last_write key (effects w).
Proof.
  induction 1 as [| w p Hw IH]; intros key; [reflexivity |].
  unfold serve.
  destruct (now_playing_world (poll_request p) (poll_now p) (poll_reply p) w)
    as [-> | [(tok & _ & ->) | [(tok & _ & _ & ->) | (tok & sample & _ & _ & ->)]]];
    simpl; try apply IH.
  all: destruct (String.eqb_spec tok key) as [-> | Hne];
    [rewrite lookup_insert_eq; reflexivity | rewrite lookup_insert_ne by exact Hne; apply IH].
Qed.

Lemma written_shape_accepted sample now : written_shape now (accepted sample now).
Proof. split; [reflexivity | left; reflexivity]. Qed.

Lemma written_shape_nothingPlaying now :
  written_shape now (nothingPlaying_accepted now 204).
Proof. split; [reflexivity | right; repeat split]. Qed.

(** C10. A request writes at most one value, under its own credential; the
    value is either the accepted sample (with [source_status] 200) or, when
    the upstream answered 204, the empty sample (with [source_status] 204,
    null [item], [is_playing] false and [progress_ms] 0), and its
    [accepted_at] is the clock reading of that request.  Hence, in every world
    the service reaches, every value ever written and every value the store
    holds has that shape. *)
Theorem store_shape_invariant :
  (∀ req now r w key at_ms e,
     StoreSet key at_ms e ∈ effects (now_playing req now r w).2 →
     StoreSet key at_ms e ∈ effects w
     ∨ (at_ms = now
        ∧ present (access_token req) = Some key
        ∧ lastByToken (now_playing req now r w).2 !! key = Some e
        ∧ ((∃ sample, stable_sample req now r key sample ∧ e = accepted sample now)
           ∨ (upstream_status r = 204 ∧ e = nothingPlaying_accepted now 204))
        ∧ written_shape now e))
  ∧ (∀ w, reachable w →
       (∀ key at_ms e, StoreSet key at_ms e ∈ effects w → written_shape at_ms e)
       ∧ (∀ key e, lastByToken w !! key = Some e →
            ∃ at_ms, StoreSet key at_ms e ∈ effects w ∧ written_shape at_ms e)).
Proof.
  assert (Hstep : ∀ req now r w key at_ms e,
     StoreSet key at_ms e ∈ effects (now_playing req now r w).2 →
     StoreSet key at_ms e ∈ effects w
     ∨ (at_ms = now
        ∧ present (access_token req) = Some key
        ∧ lastByToken (now_playing req now r w).2 !! key = Some e
        ∧ ((∃ sample, stable_sample req now r key sample ∧ e = accepted sample now)
           ∨ (upstream_status r = 204 ∧ e = nothingPlaying_accepted now 204))
        ∧ written_shape now e)).
  { intros req now r w key at_ms e.
    destruct (now_playing_world req now r w)
      as [-> | [(tok & Htok & ->) | [(tok & Htok & H204 & ->) | (tok & sample & Hs & _ & ->)]]];
      simpl; intros Hin.
    - left. exact Hin.
    - apply elem_of_cons in Hin as [Hin | Hin]; [discriminate | left; exact Hin].
    - apply elem_of_cons in Hin as [Hin | Hin].
      + injection Hin as -> -> ->. right.
        rewrite lookup_insert_eq. split; [reflexivity |].
        split; [exact Htok |]. split; [reflexivity |].
        split; [right; auto | apply written_shape_nothingPlaying].
      + apply elem_of_cons in Hin as [Hin | Hin]; [discriminate | left; exact Hin].
    - apply elem_of_cons in Hin as [Hin | Hin].
      + injection Hin as -> -> ->. right.
        rewrite lookup_insert_eq. split; [reflexivity |].
        split; [apply Hs |]. split; [reflexivity |].
        split; [left; eauto | apply written_shape_accepted].
      + apply elem_of_cons in Hin as [Hin | Hin]; [discriminate | left; exact Hin]. }
  split; [exact Hstep |].
  assert (Hlog : ∀ w, reachable w →
            ∀ key at_ms e, StoreSet key at_ms e ∈ effects w → written_shape at_ms e).
  { induction 1 as [| w p Hw IH]; intros key at_ms e Hin.
    - simpl in Hin. apply elem_of_nil in Hin. contradiction.
    - apply Hstep in Hin as [Hin | (-> & _ & _ & _ & Hshape)]; [eauto | exact Hshape]. }
  intros w Hw. split; [exact (Hlog w Hw) |].
  intros key e Hlook. rewrite (store_is_last_write w Hw) in Hlook.
  assert (Hfound : ∃ at_ms, StoreSet key at_ms e ∈ effects w).
  { clear Hw. induction (effects w) as [| [b | k a v] log IH]; simpl in Hlook.
    - discriminate.
    - destruct (IH Hlook) as [a Ha]. exists a. apply elem_of_cons. right. exact Ha.
    - destruct (String.eqb_spec k key) as [-> | Hne].
      + injection Hlook as ->. exists a. apply elem_of_cons. left. reflexivity.
      + destruct (IH Hlook) as [a' Ha]. exists a'. apply elem_of_cons. right. exact Ha. }
  destruct Hfound as [a Ha]. exists a. split; [exact Ha | exact (Hlog w Hw _ _ _ Ha)].
Qed.

(** C4, as the code has it.  In every world the service reaches, when a
    value [s2] with [source_status] 200 (an accepted sample) is written under
    a credential whose latest written value was [s1], then
    [s1.timestamp <= s2.timestamp + 1000]; and a sample more than 1000 ms
    behind the remembered timestamp is answered by the stale guard, with
    nothing written.  (The write of the 204 path is not covered: it stores
    [timestamp = server_now] without consulting the store.) *)
Theorem accepted_samples_do_not_regress w :
  reachable w →
  (∀ newer key at_ms s2 older s1,
     effects w = newer ++ StoreSet key at_ms s2 :: older →
     last_write key older = Some s1 →
     Entry.source_status s2 = 200 →
     Entry.timestamp s1 ≤ Entry.timestamp s2 + 1000)
  ∧ (∀ req now r tok sample last,
       stable_sample req now r tok sample →
       lastByToken w !! tok = Some last →
       Sample.timestamp sample + 1000 < Entry.timestamp last →
       now_playing req now r w = keeps "stale_guard" tok now last w
       ∧ effects (now_playing req now r w).2 = UpstreamGet tok :: effects w).
Proof.
  intros Hw. split.
  - induction Hw as [| w p Hw IH]; intros newer key at_ms s2 older s1 Heff Hlast H200.
    { destruct newer; discriminate. }
    unfold serve in Heff.
    destruct (now_playing_world (poll_request p) (poll_now p) (poll_reply p) w)
      as [E | [(tok & _ & E) | [(tok & _ & _ & E) | (tok & sample & _ & Hfresh & E)]]];
      rewrite E in Heff; simpl in Heff.
    + eauto.
    + apply cons_eq_app in Heff as [(_ & Hx & _) | (newer' & _ & Heff)]; [discriminate | eauto].
    + apply cons_eq_app in Heff as [(_ & Hx & _) | (newer' & _ & Heff)].
      * injection Hx as <- <- <-. discriminate.
      * apply cons_eq_app in Heff as [(_ & Hx & _) | (newer'' & _ & Heff)];
          [discriminate | eauto].
    + apply cons_eq_app in Heff as [(_ & Hx & Hold) | (newer' & _ & Heff)].
      * injection Hx as <- <- <-. subst older. simpl in Hlast.
        rewrite <- (store_is_last_write w Hw) in Hlast.
        specialize (Hfresh s1 Hlast). unfold stale in Hfresh.
        apply Z.ltb_ge in Hfresh. simpl. exact Hfresh.
      * apply cons_eq_app in Heff as [(_ & Hx & _) | (newer'' & _ & Heff)];
          [discriminate | eauto].
  - intros req now r tok sample last Hs Hlast Hlt.
    rewrite (stable_mode_sample _ _ _ _ _ _ Hs), Hlast. unfold stale.
    destruct (Z.ltb_spec (Sample.timestamp sample + 1000) (Entry.timestamp last)); [| lia].
    split; reflexivity.
Qed.

(** Two samples accepted one after the other, the second 500 ms ahead. *)
Lemma accepted_samples_do_not_regress_witness :
  let p1 := {| poll_request := stable_request "tok"; poll_now := 1700000000000;
               poll_reply := ok (playing (track "A" 200000) 100000 100000) |} in
  let p2 := {| poll_request := stable_request "tok"; poll_now := 1700000001000;
               poll_reply := ok (playing (track "A" 200000) 100500 100500) |} in
  let s1 := accepted (sampled (track "A" 200000) 100000 100000) 1700000000000 in
  let s2 := accepted (sampled (track "A" 200000) 100500 100500) 1700000001000 in
  effects (run [p1; p2] initial)
    = [StoreSet "tok" 1700000001000 s2; UpstreamGet "tok";
       StoreSet "tok" 1700000000000 s1; UpstreamGet "tok"]
  ∧ Entry.timestamp s1 ≤ Entry.timestamp s2 + 1000.
Proof.
  split; [vm_compute; reflexivity |].
  pose (p1 := {| poll_request := stable_request "tok"; poll_now := 1700000000000;
                 poll_reply := ok (playing (track "A" 200000) 100000 100000) |}).
  pose (p2 := {| poll_request := stable_request "tok"; poll_now := 1700000001000;
                 poll_reply := ok (playing (track "A" 200000) 100500 100500) |}).
  refine (proj1 (accepted_samples_do_not_regress (serve (serve initial p1).2 p2).2 _)
            [] "tok" 1700000001000 _ [UpstreamGet "tok";
               StoreSet "tok" 1700000000000
                 (accepted (sampled (track "A" 200000) 100000 100000) 1700000000000);
               UpstreamGet "tok"] _ _ _ _).
  - apply reachable_serve, reachable_serve, reachable_initial.
  - vm_compute; reflexivity.
  - vm_compute; reflexivity.
  - reflexivity.
Defined.

(** The claim of C4 fails on the 204 path.  A sample whose upstream timestamp
    is 5 s ahead of the server clock is accepted; one second later the
    upstream answers 204 and the handler writes [timestamp = server_now],
    which is 4 s behind the stored timestamp. *)
Lemma no_content_write_regresses :
  let p1 := {| poll_request := stable_request "tok"; poll_now := 1700000000000;
               poll_reply := ok (playing (track "A" 200000) 100000 1700000005000) |} in
  let p2 := {| poll_request := stable_request "tok"; poll_now := 1700000001000;
               poll_reply := no_content |} in
  let s1 := accepted (sampled (track "A" 200000) 100000 1700000005000) 1700000000000 in
  let s2 := nothingPlaying_accepted 1700000001000 204 in
  reachable (run [p1; p2] initial)
  ∧ effects (run [p1; p2] initial)
    = [StoreSet "tok" 1700000001000 s2; UpstreamGet "tok";
       StoreSet "tok" 1700000000000 s1; UpstreamGet "tok"]
  ∧ Entry.timestamp s2 + 1000 < Entry.timestamp s1.
Proof.
  split; [| split].
  - apply reachable_serve, reachable_serve, reachable_initial.
  - vm_compute; reflexivity.
  - vm_compute; reflexivity.
Qed.

(** ** [/login] *)

Lemma prefix_cons (a b : Ascii.ascii) (p s : string) :
  String.prefix (String a p) (String b s)
  = if Ascii.ascii_dec a b then String.prefix p s else false.
Proof. reflexivity. Qed.

Lemma startsWith_slash (s : string) :
  startsWith s "/" = true → ∃ r, s = String "/"%char r.
Proof.
  unfold startsWith. destruct s as [| c r]; [discriminate |].
  rewrite prefix_cons.
  destruct (Ascii.ascii_dec "/" c) as [<- | _]; [eauto | discriminate].
Qed.

Lemma trim_end_nonempty (c : Ascii.ascii) (r : string) :
  is_white_space c = false → trim_end (String c r) ≠ EmptyString.
Proof.
  intros Hc. simpl. rewrite Hc. destruct (trim_end r); discriminate.
Qed.

Lemma trim_slash (r : string) : trim (String "/"%char r) ≠ EmptyString.
Proof.
  unfold trim. simpl trim_start. apply trim_end_nonempty. reflexivity.
Qed.

(** What [sanitizeReturnPath] returns on a string. *)
Lemma sanitizeReturnPath_string (s : string) :
  Variant.sanitizeReturnPath (JStr s)
  = if startsWith s "/" && negb (startsWith s "//") then s else Variant.fallback.
Proof.
  unfold Variant.sanitizeReturnPath.
  destruct (startsWith s "/") eqn:H1; simpl.
  - destruct (startsWith_slash s H1) as [r ->].
    destruct (String.eqb_spec (trim (String "/"%char r)) EmptyString) as [E | _].
    + exfalso. exact (trim_slash r E).
    + destruct (startsWith (String "/"%char r) "//"); reflexivity.
  - destruct (String.eqb (trim s) EmptyString); reflexivity.
Qed.

(** An absolute URL, a protocol-relative URL, a non-string value and a
    same-site path. *)
Example sanitizeReturnPath_examples :
  Variant.sanitizeReturnPath (JStr "https://evil.example/") = "/spotify-overlay"
  ∧ Variant.sanitizeReturnPath (JStr "//evil.example") = "/spotify-overlay"
  ∧ Variant.sanitizeReturnPath (JArr [JStr "/a"]) = "/spotify-overlay"
  ∧ Variant.sanitizeReturnPath (JStr "   ") = "/spotify-overlay"
  ∧ Variant.sanitizeReturnPath (JStr "/overlay?x=1") = "/overlay?x=1".
Proof. repeat split. Qed.

Lemma length_append (s t : string) :
  String.length (s +:+ t) = (String.length s + String.length t)%nat.
Proof. induction s as [| c s IH]; simpl; [reflexivity | rewrite IH; reflexivity]. Qed.

(** With draws below [possible.length] the nonce has 16 characters. *)
Lemma generateRandomString_length (draw : nat → nat) (n : nat) :
  (∀ i, (draw i < 62)%nat) →
  String.length (generateRandomString draw n) = n.
Proof.
  intros Hdraw. unfold generateRandomString.
  assert (H : ∀ todo i text,
            String.length (generateRandomString_loop draw i todo text)
            = (String.length text + todo)%nat).
  { induction todo as [| todo IH]; intros i text; simpl; [lia |].
    rewrite IH, length_append.
    assert (Hc : String.length (charAt possible (draw i)) = 1%nat).
    { unfold charAt. specialize (Hdraw i).
      destruct (String.get (draw i) possible) eqn:Hget; [reflexivity |].
      exfalso. revert Hget Hdraw. generalize (draw i) as k. intros k Hget Hk.
      do 62 (destruct k as [| k]; [discriminate |]). lia. }
    rewrite Hc. lia. }
  rewrite H. reflexivity.
Qed.

(** Character [j] of the loop's result: the characters of [text] stay, and
    iteration [i + j] appends the character it drew. *)
Lemma generateRandomString_loop_get (draw : nat → nat) :
  (∀ i, (draw i < String.length possible)%nat) →
  ∀ todo i text,
    (∀ j, (j < String.length text)%nat →
          String.get j (generateRandomString_loop draw i todo text) = String.get j text)
    ∧ (∀ j, (j < todo)%nat →
            String.get (String.length text + j) (generateRandomString_loop draw i todo text)
            = String.get (draw (i + j)%nat) possible).
Proof.
  intros Hdraw. induction todo as [| todo IH]; intros i text.
  { split; [reflexivity | intros j Hj; lia]. }
  assert (Hc : ∃ c, String.get (draw i) possible = Some c
                    ∧ charAt possible (draw i) = String c EmptyString).
  { unfold charAt. specialize (Hdraw i).
    destruct (String.get (draw i) possible) as [c |] eqn:Hget; [eauto |].
    exfalso. revert Hget Hdraw. generalize (draw i) as k. intros k Hget Hk.
    do 62 (destruct k as [| k]; [discriminate |]). simpl in Hk. lia. }
  destruct Hc as (c & Hget & Hchar).
  destruct (IH (S i) (text +:+ charAt possible (draw i))) as [Hkeep Hnew].
  rewrite Hchar in Hkeep, Hnew. rewrite length_append in Hkeep, Hnew.
  simpl String.length in Hkeep, Hnew.
  simpl generateRandomString_loop. rewrite Hchar.
  split.
  - intros j Hj. rewrite Hkeep by lia. symmetry. apply String.append_correct1. exact Hj.
  - intros j Hj. destruct j as [| j].
    + rewrite Nat.add_0_r. rewrite Hkeep by lia.
      pose proof (String.append_correct2 text (String c EmptyString) 0) as H0.
      simpl in H0. rewrite <- H0, Nat.add_0_r. symmetry. exact Hget.
    + replace (String.length text + S j)%nat with (String.length text + 1 + j)%nat by lia.
      rewrite Hnew by lia. f_equal. f_equal. lia.
Qed.

(** *** Reading [state] back *)

Lemma append_cons (x : Ascii.ascii) (a b : string) :
  String x a +:+ b = String x (a +:+ b).
Proof. reflexivity. Qed.

Lemma append_nil (b : string) : "" +:+ b = b.
Proof. reflexivity. Qed.

Lemma append_assoc3 (a b c : string) : (a +:+ b) +:+ c = a +:+ (b +:+ c).
Proof.
  induction a as [| x a IH]; [reflexivity |].
  rewrite !append_cons, IH. reflexivity.
Qed.

(** Every code unit is read back from the way [JSON.stringify] writes it:
    as itself, as a two-character escape or as [\u00XX]. *)
Lemma read_units_quote (s rest : string) :
  ReadState.read_units (Variant.quote_units s +:+ String Variant.quote rest) = Some (s, rest).
Proof.
  induction s as [| c s IH]; [reflexivity |].
  change (Variant.quote_units (String c s))
    with (Variant.quote_unit c +:+ Variant.quote_units s).
  rewrite append_assoc3.
  set (tail := Variant.quote_units s +:+ String Variant.quote rest) in *. clearbody tail.
  destruct c as [[] [] [] [] [] [] [] []].
  all: match goal with
       | |- context [Variant.quote_unit ?c] =>
           let q := eval vm_compute in (Variant.quote_unit c) in
           change (Variant.quote_unit c) with q
       end.
  all: rewrite ?append_cons, append_nil.
  all: simpl; rewrite IH; reflexivity.
Qed.

Lemma strip_append (p s : string) : ReadState.strip p (p +:+ s) = Some s.
Proof.
  induction p as [| a p IH]; [reflexivity |].
  rewrite append_cons. simpl. rewrite Ascii.eqb_refl. exact IH.
Qed.

(** The text [/login] puts into [state] reads back as the two strings it was
    made of, whatever characters they hold. *)
Lemma read_state_stringify (n ret : string) :
  ReadState.read_state (Variant.stringify_state n ret) = Some (n, ret).
Proof.
  unfold ReadState.read_state.
  replace (Variant.stringify_state n ret)
    with (ReadState.open_n
            +:+ (Variant.quote_units n +:+ String Variant.quote
                   (ReadState.open_ret
                      +:+ (Variant.quote_units ret +:+ String Variant.quote "}")))).
  - rewrite strip_append, read_units_quote, strip_append, read_units_quote. reflexivity.
  - unfold Variant.stringify_state, ReadState.open_n, ReadState.open_ret, Variant.quote_string.
    change (Variant.quote_units "n") with "n".
    change (Variant.quote_units "ret") with "ret".
    rewrite ?append_cons, ?append_nil, ?append_assoc3, ?append_cons, ?append_nil.
    reflexivity.
Qed.

(** C9. The [/login] that accepts [?return=] (the later revision, in
    part_001) redirects to the authorization endpoint with a [state] that is
    the JSON text of [{ n: nonce, ret }]: read back, it gives the nonce and
    the sanitized return path.  With draws below [possible.length] the nonce
    has 16 characters, the [i]-th being the one drawn in iteration [i].
    [ret] always starts with one slash and not with two; it is the fallback
    [/spotify-overlay] for every value that is not a string starting with a
    slash (absolute URLs among them) and for every string starting with two
    slashes, and the value itself otherwise.  The [/login] of server.js sends
    the nonce alone as [state], whatever the query holds. *)
Theorem login_return_path_sanitized (env : Env) (draw : nat → nat) (value : JsVal) :
  let nonce := generateRandomString draw 16 in
  let ret := Variant.sanitizeReturnPath (js_or value (JStr Variant.fallback)) in
  (∃ state,
      Variant.login env draw value
        = {| endpoint := "https://accounts.spotify.com/authorize?";
             params := [ ("response_type", JStr "code");
                         ("client_id", client_id env);
                         ("scope", JStr scope);
                         ("redirect_uri", redirect_uri env);
                         ("state", JStr state);
                         ("show_dialog", JBool true) ] |}
      ∧ ReadState.read_state state = Some (nonce, ret))
  ∧ ((∀ i, (draw i < String.length possible)%nat) →
       String.length nonce = 16%nat
       ∧ ∀ i, (i < 16)%nat → String.get i nonce = String.get (draw i) possible)
  ∧ startsWith ret "/" = true
  ∧ startsWith ret "//" = false
  ∧ (¬ (∃ s, value = JStr s ∧ startsWith s "/" = true) → ret = "/spotify-overlay")
  ∧ (∀ s, value = JStr s → startsWith s "//" = true → ret = "/spotify-overlay")
  ∧ (∀ s, value = JStr s → startsWith s "/" = true → startsWith s "//" = false → ret = s)
  ∧ login env draw value
      = {| endpoint := "https://accounts.spotify.com/authorize?";
           params := [ ("response_type", JStr "code");
                       ("client_id", client_id env);
                       ("scope", JStr scope);
                       ("redirect_uri", redirect_uri env);
                       ("state", JStr nonce);
                       ("show_dialog", JBool true) ] |}.
Proof.
  intros nonce ret. split.
  { exists (Variant.stringify_state nonce ret). split; [reflexivity |].
    apply read_state_stringify. }
  split.
  { intros Hdraw. split; [apply generateRandomString_length; exact Hdraw |].
    intros i Hi.
    destruct (generateRandomString_loop_get draw Hdraw 16 0%nat EmptyString) as [_ H].
    exact (H i Hi). }
  assert (Hret : ret = match value with
                       | JStr s => if startsWith s "/" && negb (startsWith s "//")
                                   then s else Variant.fallback
                       | _ => Variant.fallback
                       end).
  { subst ret. unfold js_or.
    destruct value as [| | b | n | s | l | m]; simpl; try reflexivity.
    - destruct b; reflexivity.
    - destruct (n =? 0); reflexivity.
    - destruct (String.eqb_spec s EmptyString) as [-> | _]; simpl.
      + reflexivity.
      + apply sanitizeReturnPath_string. }
  rewrite Hret. clear Hret ret.
  split; [| split; [| split; [| split; [| split]]]].
  - destruct value; try reflexivity.
    destruct (startsWith s "/") eqn:H1; [| reflexivity].
    destruct (startsWith s "//"); [reflexivity | exact H1].
  - destruct value; try reflexivity.
    destruct (startsWith s "/"); [| reflexivity].
    destruct (startsWith s "//") eqn:H2; [reflexivity | exact H2].
  - intros Hno. destruct value; try reflexivity.
    destruct (startsWith s "/") eqn:H1; [| reflexivity].
    exfalso. apply Hno. eauto.
  - intros s -> H2. rewrite H2. rewrite andb_false_r. reflexivity.
  - intros s -> H1 H2. rewrite H1, H2. reflexivity.
  - reflexivity.
Qed.

(** The draws [0, 1, 2, ...] and the return path [/dashboard]: the nonce is
    the first 16 letters of the alphabet, and [state] reads back as the nonce
    and the path. *)
Lemma login_return_path_sanitized_witness :
  let env := {| client_id := JStr "id"; client_secret := JStr "secret";
                redirect_uri := JStr "https://backend.example/callback";
                frontend_uri := JStr "https://frontend.example" |} in
  let draw := λ i : nat, (i mod 62)%nat in
  (∃ state,
      In ("state", JStr state) (params (Variant.login env draw (JStr "/dashboard")))
      ∧ ReadState.read_state state = Some ("ABCDEFGHIJKLMNOP", "/dashboard"))
  ∧ String.length (generateRandomString draw 16) = 16%nat
  ∧ String.get 3 (generateRandomString draw 16) = Some "D"%char.
Proof.
  pose proof (login_return_path_sanitized
           {| client_id := JStr "id"; client_secret := JStr "secret";
              redirect_uri := JStr "https://backend.example/callback";
              frontend_uri := JStr "https://frontend.example" |}
           (λ i : nat, (i mod 62)%nat) (JStr "/dashboard")) as H.
  destruct H as ((state & Hlogin & Hread) & Hnonce & _).
  assert (Hdraw : ∀ i, (i mod 62 < String.length possible)%nat).
  { intros i. apply Nat.mod_upper_bound. discriminate. }
  destruct (Hnonce Hdraw) as [Hlen Hget].
  split; [| split].
  - exists state. split; [| exact Hread].
    rewrite Hlogin. simpl. do 4 right. left. reflexivity.
  - exact Hlen.
  - rewrite (Hget 3%nat) by lia. reflexivity.
Defined.

(** The claim of C9 fails on server.js: its [/login] sends the bare nonce as
    [state], which holds no return path, and sends the same redirect for a
    same-site path and for an absolute URL. *)
Lemma server_login_ignores_return :
  let env := {| client_id := JStr "id"; client_secret := JStr "secret";
                redirect_uri := JStr "https://backend.example/callback";
                frontend_uri := JStr "https://frontend.example" |} in
  params (login env (λ _, 0%nat) (JStr "/dashboard"))
    = [ ("response_type", JStr "code");
        ("client_id", JStr "id");
        ("scope", JStr "user-read-playback-state user-read-currently-playing");
        ("redirect_uri", JStr "https://backend.example/callback");
        ("state", JStr "AAAAAAAAAAAAAAAA");
        ("show_dialog", JBool true) ]
  ∧ ReadState.read_state "AAAAAAAAAAAAAAAA" = None
  ∧ login env (λ _, 0%nat) (JStr "/dashboard")
      = login env (λ _, 0%nat) (JStr "https://evil.example/").
Proof. repeat split. Qed.

(** * Further properties of the handlers *)

(** ** [/now-playing] of server.js *)

(** X1. A request touches the store under its own credential at most: the
    value remembered for any other credential is the same afterwards, and no
    credential that had a value loses it. *)
Theorem other_credentials_untouched req now r w :
  let w' := (now_playing req now r w).2 in
  (∀ key, present (access_token req) ≠ Some key →
     lastByToken w' !! key = lastByToken w !! key)
  ∧ (∀ key, is_Some (lastByToken w !! key) → is_Some (lastByToken w' !! key)).
Proof.
  intros w'. subst w'.
  destruct (now_playing_world req now r w)
    as [-> | [(tok & Htok & ->) | [(tok & Htok & _ & ->) | (tok & sample & Hs & _ & ->)]]];
    simpl.
  1, 2: split; [reflexivity | auto].
  - split.
    + intros key Hkey. apply lookup_insert_ne. congruence.
    + intros key Hsome. destruct (decide (tok = key)) as [-> | Hne].
      * rewrite lookup_insert_eq. eauto.
      * rewrite lookup_insert_ne by exact Hne. exact Hsome.
  - destruct Hs as (Htok & _). split.
    + intros key Hkey. apply lookup_insert_ne. congruence.
    + intros key Hsome. destruct (decide (tok = key)) as [-> | Hne].
      * rewrite lookup_insert_eq. eauto.
      * rewrite lookup_insert_ne by exact Hne. exact Hsome.
Qed.

Lemma make_sample_throws (body : JsVal) (now : Z) :
  is_object_tag (typeof body) = true →
  make_sample body now = TypeError ↔ body = JNull.
Proof.
  intros Hobj. unfold make_sample.
  destruct body; simpl in *; try discriminate; split; intros H; congruence.
Qed.

(** X2. The handler throws, sending no answer, in exactly one situation: a
    stable-mode request with a credential whose upstream reply is a 200
    without transport error and with the body [null]. *)
Theorem throws_only_on_null_body req now r w :
  (now_playing req now r w).1 = Threw
  ↔ (∃ tok, present (access_token req) = Some tok)
    ∧ useStable req = true
    ∧ error r = false
    ∧ upstream_status r = 200
    ∧ body r = JNull.
Proof.
  split.
  - intros Hthrew.
    destruct (present (access_token req)) as [tok |] eqn:Htok.
    2: { unfold now_playing in Hthrew. rewrite Htok in Hthrew. discriminate. }
    destruct (useStable req) eqn:Hst.
    2: { unfold now_playing, callback, pass_through in Hthrew.
         rewrite Htok, Hst in Hthrew. simpl in Hthrew.
         destruct (error r); [discriminate |].
         destruct (upstream_status r =? 204); [discriminate |].
         destruct (negb (upstream_status r =? 200) || negb (is_object_tag (typeof (body r))));
           discriminate. }
    pose proof (now_playing_stable req now r tok w Htok Hst) as Hout.
    set (out := now_playing req now r w) in *. clearbody out.
    destruct Hout as [| | | Herr H200 Hobj Hs | | |]; try discriminate.
    split; [eauto |]. split; [reflexivity |]. split; [exact Herr |]. split; [exact H200 |].
    apply (make_sample_throws _ now Hobj). exact Hs.
  - intros ((tok & Htok) & Hst & Herr & H200 & Hbody).
    unfold now_playing, callback, stable_mode. rewrite Htok, Hst. simpl.
    rewrite Herr, H200, Hbody. reflexivity.
Qed.

(** X3. The early-switch guard concerns track changes only.  A sample that
    passed the stale guard is accepted, whatever its [progress_ms], when the
    remembered state has no item, when the sample has none, or when the two
    items carry the same [id]. *)
Theorem accepted_without_track_change req now r tok sample last w :
  stable_sample req now r tok sample →
  lastByToken w !! tok = Some last →
  ¬ Sample.timestamp sample + 1000 < Entry.timestamp last →
  truthy (Entry.item last) = false
  ∨ truthy (Sample.item sample) = false
  ∨ strict_eq (get_or_undefined (Entry.item last) "id")
              (get_or_undefined (Sample.item sample) "id") = true →
  now_playing req now r w = accepts tok now sample w.
Proof.
  intros Hs Hlast Hfresh Hsame.
  rewrite (stable_mode_sample _ _ _ _ _ _ Hs), Hlast.
  unfold stale. destruct (Z.ltb_spec (Sample.timestamp sample + 1000) (Entry.timestamp last));
    [lia |].
  assert (Hunchanged : track_changed last sample = false).
  { unfold track_changed. destruct Hsame as [E | [E | E]]; rewrite E; simpl.
    - reflexivity.
    - rewrite andb_false_r. reflexivity.
    - apply andb_false_r. }
  rewrite Hunchanged. reflexivity.
Qed.

(** A later poll of the same track, 400 ms into the song. *)
Lemma accepted_without_track_change_witness :
  let now := 1700000001000 in
  let last := previous (track "A" 200000) 100 100000 1700000000000 in
  now_playing (stable_request "tok") now (ok (playing (track "A" 200000) 400 100000))
      (remembering "tok" last)
    = accepts "tok" now (sampled (track "A" 200000) 400 100000) (remembering "tok" last).
Proof.
  apply (accepted_without_track_change (stable_request "tok") 1700000001000
           (ok (playing (track "A" 200000) 400 100000)) "tok"
           (sampled (track "A" 200000) 400 100000)
           (previous (track "A" 200000) 100 100000 1700000000000)).
  - repeat (split; [vm_compute; reflexivity |]). vm_compute; reflexivity.
  - vm_compute; reflexivity.
  - simpl; lia.
  - right; right. vm_compute; reflexivity.
Defined.

(** X4. Suppression of a switch away from a playing track ends with time:
    once the remembered progress plus the wall time since it was accepted
    reaches 92% of the track's duration, a sample that passed the stale guard
    is accepted, however young the new track is. *)
Theorem suppression_ends_with_time req now r tok sample last w :
  stable_sample req now r tok sample →
  lastByToken w !! tok = Some last →
  ¬ Sample.timestamp sample + 1000 < Entry.timestamp last →
  Entry.is_playing last = true →
  Entry.accepted_at last ≠ 0 →
  0 < prevDuration last →
  92 * prevDuration last
    ≤ 100 * (Entry.progress_ms last + (now - Entry.accepted_at last)) →
  now_playing req now r w = accepts tok now sample w.
Proof.
  intros Hs Hlast Hfresh Hplaying Hacc Hd Hlate.
  rewrite (stable_mode_sample _ _ _ _ _ _ Hs), Hlast.
  unfold stale. destruct (Z.ltb_spec (Sample.timestamp sample + 1000) (Entry.timestamp last));
    [lia |].
  assert (Hnear : nearEnd last now = true).
  { apply nearEnd_integers. split; [exact Hd |].
    unfold estLocal, elapsed, or_Infinity. rewrite Hplaying.
    destruct (Z.eqb_spec (prevDuration last) 0); [lia |].
    destruct (Z.eqb_spec (Entry.accepted_at last) 0); [contradiction |].
    simpl. lia. }
  rewrite Hnear. simpl. rewrite andb_false_r. reflexivity.
Qed.

(** Track A remembered at 50% of 200000 ms; 84 s later the switch to a
    track B at 500 ms is accepted. *)
Lemma suppression_ends_with_time_witness :
  let now := 1700000084000 in
  let last := previous (track "A" 200000) 100000 100000 1700000000000 in
  now_playing (stable_request "tok") now (ok (playing (track "B" 180000) 500 184000))
      (remembering "tok" last)
    = accepts "tok" now (sampled (track "B" 180000) 500 184000) (remembering "tok" last).
Proof.
  apply (suppression_ends_with_time (stable_request "tok") 1700000084000
           (ok (playing (track "B" 180000) 500 184000)) "tok"
           (sampled (track "B" 180000) 500 184000)
           (previous (track "A" 200000) 100000 100000 1700000000000)).
  - repeat (split; [vm_compute; reflexivity |]). vm_compute; reflexivity.
  - vm_compute; reflexivity.
  - simpl; lia.
  - reflexivity.
  - simpl; lia.
  - vm_compute; reflexivity.
  - vm_compute. discriminate.
Defined.

(** X5. After a 204 the store holds the empty sample stamped with the server
    clock of that request.  The next sample is then never suppressed as an
    early switch; it is kept out as stale when its upstream timestamp is more
    than 1000 ms before that clock reading, and accepted otherwise. *)
Theorem sample_after_no_content req now1 r1 now2 r2 tok sample w :
  present (access_token req) = Some tok →
  useStable req = true →
  error r1 = false →
  upstream_status r1 = 204 →
  stable_sample req now2 r2 tok sample →
  let w1 := (now_playing req now1 r1 w).2 in
  lastByToken w1 !! tok = Some (nothingPlaying_accepted now1 204)
  ∧ now_playing req now2 r2 w1
    = if Sample.timestamp sample + 1000 <? now1
      then keeps "stale_guard" tok now2 (nothingPlaying_accepted now1 204) w1
      else accepts tok now2 sample w1.
Proof.
  intros Htok Hst Herr H204 Hs w1.
  assert (Hw1 : w1 = store_set tok now1 (nothingPlaying_accepted now1 204) (request_get tok w)).
  { subst w1. unfold now_playing, callback, stable_mode. rewrite Htok, Hst. simpl.
    rewrite Herr, H204. reflexivity. }
  assert (Hlook : lastByToken w1 !! tok = Some (nothingPlaying_accepted now1 204)).
  { rewrite Hw1. simpl. apply lookup_insert_eq. }
  split; [exact Hlook |].
  rewrite (stable_mode_sample _ _ _ _ _ _ Hs), Hlook.
  unfold stale. simpl.
  destruct (Sample.timestamp sample + 1000 <? now1); reflexivity.
Qed.

(** A 204 at server time 1700000000000, then a sample whose upstream
    timestamp is two minutes older: it is kept out as stale. *)
Lemma sample_after_no_content_witness :
  let req := stable_request "tok" in
  let w1 := (now_playing req 1700000000000 no_content initial).2 in
  now_playing req 1700000001000 (ok (playing (track "A" 200000) 120000 1699999880000)) w1
    = keeps "stale_guard" "tok" 1700000001000 (nothingPlaying_accepted 1700000000000 204) w1.
Proof.
  exact (proj2 (sample_after_no_content (stable_request "tok") 1700000000000 no_content
                  1700000001000 (ok (playing (track "A" 200000) 120000 1699999880000)) "tok"
                  (sampled (track "A" 200000) 120000 1699999880000) initial
                  eq_refl eq_refl eq_refl eq_refl
                  (conj eq_refl (conj eq_refl (conj eq_refl (conj eq_refl
                     (conj eq_refl eq_refl))))))).
Defined.

(** ** [generateRandomString] *)

Lemma list_ascii_of_append (s t : string) :
  String.list_ascii_of_string (s +:+ t)
  = String.list_ascii_of_string s ++ String.list_ascii_of_string t.
Proof. induction s as [| c s IH]; simpl; [reflexivity | rewrite IH; reflexivity]. Qed.

Lemma get_In (s : string) (i : nat) (c : Ascii.ascii) :
  String.get i s = Some c → In c (String.list_ascii_of_string s).
Proof.
  revert i. induction s as [| a s IH]; intros i; simpl; [discriminate |].
  destruct i as [| i]; [intros H; injection H as ->; left; reflexivity |].
  intros H. right. exact (IH i H).
Qed.

Lemma charAt_drawn (s : string) (i : nat) : drawn_from s (charAt s i).
Proof.
  unfold drawn_from, charAt. intros c.
  destruct (String.get i s) as [a |] eqn:Hget; simpl; [| contradiction].
  intros [-> | []]. exact (get_In s i c Hget).
Qed.

Lemma charAt_length (s : string) (i : nat) : (String.length (charAt s i) ≤ 1)%nat.
Proof. unfold charAt. destruct (String.get i s); simpl; lia. Qed.

Lemma generateRandomString_loop_spec (draw : nat → nat) (todo i : nat) (text : string) :
  drawn_from possible text →
  drawn_from possible (generateRandomString_loop draw i todo text)
  ∧ (String.length (generateRandomString_loop draw i todo text)
     ≤ String.length text + todo)%nat.
Proof.
  revert i text. induction todo as [| todo IH]; intros i text Htext; simpl.
  - split; [exact Htext | lia].
  - destruct (IH (S i) (text +:+ charAt possible (draw i))) as [Hd Hl].
    + intros c. rewrite list_ascii_of_append, in_app_iff.
      intros [H | H]; [exact (Htext c H) | exact (charAt_drawn possible (draw i) c H)].
    + split; [exact Hd |].
      rewrite length_append in Hl. pose proof (charAt_length possible (draw i)). lia.
Qed.

(** X6. The generated string consists of characters of the 62-letter
    alphabet only and has at most [length] of them; it has exactly [length]
    when every draw is below the size of the alphabet, as
    [Math.floor(Math.random() * 62)] is. *)
Theorem generateRandomString_alphabet (draw : nat → nat) (n : nat) :
  drawn_from possible (generateRandomString draw n)
  ∧ (String.length (generateRandomString draw n) ≤ n)%nat
  ∧ ((∀ i, (draw i < String.length possible)%nat) →
       String.length (generateRandomString draw n) = n).
Proof.
  unfold generateRandomString.
  destruct (generateRandomString_loop_spec draw n 0 EmptyString) as [Hd Hl].
  { intros c []. }
  split; [exact Hd |]. split; [exact Hl |].
  intros Hdraw. apply (generateRandomString_length draw n). exact Hdraw.
Qed.

(** ** Return paths *)

Lemma sanitizeReturnPath_same_site (v : JsVal) :
  startsWith (Variant.sanitizeReturnPath v) "/" = true
  ∧ startsWith (Variant.sanitizeReturnPath v) "//" = false.
Proof.
  destruct v as [| | b | n | s | l | m]; try (split; reflexivity).
  rewrite sanitizeReturnPath_string.
  destruct (startsWith s "/") eqn:H1; simpl; [| split; reflexivity].
  destruct (startsWith s "//") eqn:H2; simpl; [split; reflexivity | auto].
Qed.

Lemma sanitizeReturnPath_keeps (s : string) :
  startsWith s "/" = true → startsWith s "//" = false →
  Variant.sanitizeReturnPath (JStr s) = s.
Proof.
  intros H1 H2. rewrite sanitizeReturnPath_string, H1, H2. reflexivity.
Qed.

(** X7. Sanitizing is idempotent: a sanitized path passes through
    [sanitizeReturnPath] unchanged, so the second sanitization that
    [/callback] applies to what [/login] embedded changes nothing. *)
Theorem sanitizeReturnPath_idempotent (v : JsVal) :
  Variant.sanitizeReturnPath (JStr (Variant.sanitizeReturnPath v))
  = Variant.sanitizeReturnPath v.
Proof.
  destruct (sanitizeReturnPath_same_site v) as [H1 H2].
  apply sanitizeReturnPath_keeps; assumption.
Qed.

(** ** The token exchange *)

Lemma get_throws (v : JsVal) (k : string) :
  get v k = TypeError ↔ v = JNull ∨ v = JUndefined.
Proof.
  destruct v; simpl; split; intros H; try discriminate; auto;
    destruct H as [H | H]; discriminate.
Qed.

Lemma with_tokens_cases (env : Env) (path : string) (body : JsVal) :
  (Tokens.with_tokens env path body = Thrown ∧ (body = JNull ∨ body = JUndefined))
  ∨ (Tokens.with_tokens env path body
     = Redirected {| base := frontend_uri env; path := path;
                     query := [ ("access_token", get_or_undefined body "access_token");
                                ("refresh_token", get_or_undefined body "refresh_token") ] |}
     ∧ body ≠ JNull ∧ body ≠ JUndefined).
Proof.
  unfold Tokens.with_tokens, get_or_undefined.
  destruct body; simpl; auto; right; repeat split; discriminate.
Qed.

(** X8. [/callback] of the revision with return paths.  Whatever [state] the
    request carries and whatever [JSON.parse] makes of it, the redirect goes
    to [frontend_uri] followed by a path that starts with one slash and not
    with two; the path is the fallback when [state] is absent, empty or not
    parsable.  The redirect carries the tokens exactly when the exchange
    answered 200 without error, and [error=invalid_token] otherwise; the
    handler throws only on a 200 whose body is [null] or [undefined]. *)
Theorem callback_redirects_same_site
    (parse : string → Res JsVal) (env : Env) (state code : option string) (r : Reply) :
  let handled := VariantTokens.callback parse env state code r in
  let p := VariantTokens.retPath parse state in
  startsWith p "/" = true
  ∧ startsWith p "//" = false
  ∧ (present state = None ∨ (∃ s, present state = Some s ∧ parse s = TypeError) →
       p = "/spotify-overlay")
  ∧ (∀ t, answer handled = Redirected t →
       base t = frontend_uri env ∧ path t = p
       ∧ if VariantTokens.exchanged r
         then query t = [ ("access_token", get_or_undefined (body r) "access_token");
                          ("refresh_token", get_or_undefined (body r) "refresh_token") ]
         else query t = [ ("error", JStr "invalid_token") ])
  ∧ (answer handled = Thrown
     ↔ VariantTokens.exchanged r = true ∧ (body r = JNull ∨ body r = JUndefined)).
Proof.
  intros handled p. subst handled p.
  assert (Hsite : startsWith (VariantTokens.retPath parse state) "/" = true
                  ∧ startsWith (VariantTokens.retPath parse state) "//" = false).
  { unfold VariantTokens.retPath.
    destruct (present state) as [s |]; [| split; reflexivity].
    destruct (parse s) as [parsed |]; [| split; reflexivity].
    destruct (truthy parsed); apply sanitizeReturnPath_same_site. }
  destruct Hsite as [H1 H2]. split; [exact H1 |]. split; [exact H2 |]. split.
  { unfold VariantTokens.retPath. intros [-> | (s & -> & ->)]; reflexivity. }
  unfold VariantTokens.callback. simpl.
  destruct (VariantTokens.exchanged r) eqn:Hex.
  - destruct (with_tokens_cases env (VariantTokens.retPath parse state) (body r))
      as [[-> Hnull] | (-> & Hn1 & Hn2)].
    + split; [intros t Ht; discriminate |]. split; auto.
    + split.
      * intros t Ht. injection Ht as <-. simpl. auto.
      * split; [discriminate |]. intros [_ [H | H]]; contradiction.
  - split.
    + intros t Ht. injection Ht as <-. simpl. auto.
    + split; [discriminate | intros [H _]; discriminate].
Qed.

(** X9. The return path survives the round through the authorization
    server: when [JSON.parse] gives back the object that [/login] stringified
    into [state], [/callback] redirects to the very path [/login] chose. *)
Theorem login_callback_round_trip
    (parse : string → Res JsVal) (env : Env) (draw : nat → nat) (value : JsVal) :
  let nonce := generateRandomString draw 16 in
  let ret := Variant.sanitizeReturnPath (js_or value (JStr Variant.fallback)) in
  let state := Variant.stringify_state nonce ret in
  parse state = Ok (JObj (<["n" := JStr nonce]> (<["ret" := JStr ret]> ∅))) →
  In ("state", JStr state) (params (Variant.login env draw value))
  ∧ VariantTokens.retPath parse (Some state) = ret.
Proof.
  intros nonce ret state Hparse. split.
  { unfold Variant.login. simpl. do 4 right. left. reflexivity. }
  unfold VariantTokens.retPath.
  assert (Hpresent : present (Some state) = Some state) by reflexivity.
  rewrite Hpresent, Hparse. simpl.
  unfold get_or_undefined, get.
  rewrite lookup_insert_ne by discriminate. rewrite lookup_insert_eq. simpl.
  destruct (sanitizeReturnPath_same_site (js_or value (JStr Variant.fallback))) as [H1 H2].
  apply sanitizeReturnPath_keeps; assumption.
Qed.

Lemma login_callback_round_trip_witness :
  let parse := λ _ : string,
    Ok (JObj (<["n" := JStr "AAAAAAAAAAAAAAAA"]> (<["ret" := JStr "/dashboard"]> ∅))) in
  VariantTokens.retPath parse
    (Some (Variant.stringify_state "AAAAAAAAAAAAAAAA" "/dashboard"))
  = "/dashboard".
Proof.
  exact (proj2 (login_callback_round_trip
           (λ _, Ok (JObj (<["n" := JStr "AAAAAAAAAAAAAAAA"]>
                             (<["ret" := JStr "/dashboard"]> ∅))))
           {| client_id := JStr "id"; client_secret := JStr "secret";
              redirect_uri := JStr "https://backend.example/callback";
              frontend_uri := JStr "https://frontend.example" |}
           (λ _, 0%nat) (JStr "/dashboard") eq_refl)).
Defined.

(** X10. [/callback] of server.js always asks the token endpoint with the
    authorization-code form.  It redirects to [frontend_uri] at [/]: with the
    two tokens of the body when the exchange answered 200 without error, and
    with [error=invalid_token] on an error or any other status.  It throws,
    redirecting nowhere, when there is neither error nor response, and on a
    200 whose body is [null] or [undefined]. *)
Theorem callback_forwards_tokens_on_success_only (env : Env) (code : option string) (r : Reply) :
  let handled := Tokens.callback env code r in
  (∃ request, asked handled = Some request
              ∧ url request = "https://accounts.spotify.com/api/token"
              ∧ form request = [ ("code", match present code with
                                           | Some c => JStr c
                                           | None => JNull
                                           end);
                                 ("redirect_uri", redirect_uri env);
                                 ("grant_type", JStr "authorization_code") ])
  ∧ (∀ t, answer handled = Redirected t →
       base t = frontend_uri env ∧ path t = "/"
       ∧ ((error r = false ∧ response r = Some 200
           ∧ query t = [ ("access_token", get_or_undefined (body r) "access_token");
                         ("refresh_token", get_or_undefined (body r) "refresh_token") ])
          ∨ ((error r = true ∨ ∃ c, response r = Some c ∧ c ≠ 200)
             ∧ query t = [ ("error", JStr "invalid_token") ])))
  ∧ (answer handled = Thrown
     ↔ error r = false
       ∧ (response r = None
          ∨ (response r = Some 200 ∧ (body r = JNull ∨ body r = JUndefined)))).
Proof.
  intros handled. subst handled. unfold Tokens.callback. simpl. split.
  { eexists. split; [reflexivity |]. split; [reflexivity |].
    unfold Tokens.authorization_code, js_or, param, present. simpl.
    destruct code as [c |]; [| reflexivity]. simpl.
    destruct (String.eqb c EmptyString); reflexivity. }
  unfold Tokens.exchanged.
  destruct (error r) eqn:Herr.
  { split.
    - intros t Ht. injection Ht as <-. simpl. split; [reflexivity |]. split; [reflexivity |].
      right. auto.
    - split; [discriminate | intros [H _]; discriminate]. }
  destruct (response r) as [c |] eqn:Hresp.
  2: { split; [intros t Ht; discriminate |]. split; auto. }
  destruct (Z.eqb_spec c 200) as [-> | Hne].
  - destruct (with_tokens_cases env "/" (body r)) as [[-> Hnull] | (-> & Hn1 & Hn2)].
    + split; [intros t Ht; discriminate |]. split; auto.
    + split.
      * intros t Ht. injection Ht as <-. simpl.
        split; [reflexivity |]. split; [reflexivity |]. left. auto.
      * split; [discriminate |].
        intros [_ [H | [_ [H | H]]]]; [discriminate | contradiction | contradiction].
  - split.
    + intros t Ht. injection Ht as <-. simpl. split; [reflexivity |]. split; [reflexivity |].
      right. split; [right; eauto | reflexivity].
    + split; [discriminate |].
      intros [_ [H | [H _]]]; [discriminate | congruence].
Qed.

Lemma with_access_token_cases (body : JsVal) :
  (Tokens.with_access_token body = Thrown ∧ (body = JNull ∨ body = JUndefined))
  ∨ (Tokens.with_access_token body
     = Sent 200 (<["access_token" := get_or_undefined body "access_token"]> ∅)
     ∧ body ≠ JNull ∧ body ≠ JUndefined).
Proof.
  unfold Tokens.with_access_token, get_or_undefined.
  destruct body; simpl; auto; right; repeat split; discriminate.
Qed.

(** X11. [/refresh_token].  Both revisions answer 200 with the body's
    [access_token], and nothing else of the body, exactly when the exchange
    answered 200 without error, and 400 otherwise; never another status.
    server.js asks the token endpoint even without a [refresh_token] and
    throws when there is neither error nor response; the revision with return
    paths refuses an absent or empty [refresh_token] with 400 without asking,
    and throws on neither.  Both throw on a 200 whose body is [null] or
    [undefined]. *)
Theorem refresh_token_answers (env : Env) (token : option string) (r : Reply) :
  let first := Tokens.refresh_token env token r in
  let second := VariantTokens.refresh_token env token r in
  (∃ request, asked first = Some request
              ∧ form request = [ ("grant_type", JStr "refresh_token");
                                 ("refresh_token", param token) ])
  ∧ (∀ status j, answer first = Sent status j →
       (status = 200 ∧ error r = false ∧ response r = Some 200
        ∧ j = <["access_token" := get_or_undefined (body r) "access_token"]> ∅)
       ∨ (status = 400 ∧ (error r = true ∨ ∃ c, response r = Some c ∧ c ≠ 200)
          ∧ j = <["error" := JStr "Failed to refresh token"]> ∅))
  ∧ (answer first = Thrown
     ↔ error r = false
       ∧ (response r = None
          ∨ (response r = Some 200 ∧ (body r = JNull ∨ body r = JUndefined))))
  ∧ (present token = None →
       asked second = None
       ∧ answer second = Sent 400 (<["error" := JStr "Missing refresh_token"]> ∅))
  ∧ (∀ tok, present token = Some tok →
       (∃ request, asked second = Some request
                   ∧ form request = [ ("grant_type", JStr "refresh_token");
                                      ("refresh_token", JStr tok) ])
       ∧ (∀ status j, answer second = Sent status j →
            (status = 200 ∧ VariantTokens.exchanged r = true
             ∧ j = <["access_token" := get_or_undefined (body r) "access_token"]> ∅)
            ∨ (status = 400 ∧ VariantTokens.exchanged r = false
               ∧ j = <["error" := JStr "Failed to refresh token"]> ∅))
       ∧ (answer second = Thrown
          ↔ VariantTokens.exchanged r = true ∧ (body r = JNull ∨ body r = JUndefined))).
Proof.
  intros first second. subst first second.
  split; [eexists; split; reflexivity |].
  assert (Hfirst :
    (∀ status j, answer (Tokens.refresh_token env token r) = Sent status j →
       (status = 200 ∧ error r = false ∧ response r = Some 200
        ∧ j = <["access_token" := get_or_undefined (body r) "access_token"]> ∅)
       ∨ (status = 400 ∧ (error r = true ∨ ∃ c, response r = Some c ∧ c ≠ 200)
          ∧ j = <["error" := JStr "Failed to refresh token"]> ∅))
    ∧ (answer (Tokens.refresh_token env token r) = Thrown
       ↔ error r = false
         ∧ (response r = None
            ∨ (response r = Some 200 ∧ (body r = JNull ∨ body r = JUndefined))))).
  { unfold Tokens.refresh_token, Tokens.exchanged, Tokens.failed_to_refresh. simpl.
    destruct (error r) eqn:Herr.
    { split.
      - intros status j H. injection H as <- <-. right. auto.
      - split; [discriminate | intros [H _]; discriminate]. }
    destruct (response r) as [c |] eqn:Hresp.
    2: { split; [intros status j H; discriminate |]. split; auto. }
    destruct (Z.eqb_spec c 200) as [-> | Hne].
    - destruct (with_access_token_cases (body r)) as [[-> Hnull] | (-> & Hn1 & Hn2)].
      + split; [intros status j H; discriminate |]. split; auto.
      + split.
        * intros status j H. injection H as <- <-. left. auto.
        * split; [discriminate |].
          intros [_ [H | [_ [H | H]]]]; [discriminate | contradiction | contradiction].
    - split.
      + intros status j H. injection H as <- <-. right.
        split; [reflexivity |]. split; [right; eauto | reflexivity].
      + split; [discriminate |].
        intros [_ [H | [H _]]]; [discriminate | congruence]. }
  destruct Hfirst as [Hsent Hthrown].
  split; [exact Hsent |]. split; [exact Hthrown |].
  unfold VariantTokens.refresh_token. split.
  { intros ->. split; reflexivity. }
  intros tok ->. simpl. split; [eexists; split; reflexivity |].
  unfold Tokens.failed_to_refresh.
  destruct (VariantTokens.exchanged r) eqn:Hex.
  - destruct (with_access_token_cases (body r)) as [[-> Hnull] | (-> & Hn1 & Hn2)].
    + split; [intros status j H; discriminate |]. split; auto.
    + split.
      * intros status j H. injection H as <- <-. left. auto.
      * split; [discriminate |]. intros [_ [H | H]]; contradiction.
  - split.
    + intros status j H. injection H as <- <-. right. auto.
    + split; [discriminate | intros [H _]; discriminate].
Qed.

(** ** [/now-playing] of the first revision *)

(** X13. The first revision of [/now-playing] answers 400 without a
    credential and 200 with the upstream body, whatever it is, on a 200
    without error; on every other reply it passes the upstream's own status
    code on as its own.  When the upstream gave no response at all, as on a
    transport error, it throws and answers nothing. *)
Theorem original_propagates_upstream_status (req : Request) (r : Reply) :
  (present (access_token req) = None →
     Original.now_playing req r
     = Original.Answered 400 (JObj (<["error" := JStr "Missing access token"]> ∅)))
  ∧ (∀ tok, present (access_token req) = Some tok →
       (Original.now_playing req r = Original.Thrown ↔ response r = None)
       ∧ (∀ c, response r = Some c →
            Original.now_playing req r
            = if negb (error r) && (c =? 200)
              then Original.Answered 200 (body r)
              else Original.Answered c Original.failed)).
Proof.
  unfold Original.now_playing, Tokens.exchanged. split.
  { intros ->. reflexivity. }
  intros tok ->. split.
  - destruct (error r); destruct (response r) as [c |]; simpl.
    + split; discriminate.
    + split; reflexivity.
    + destruct (c =? 200); split; discriminate.
    + split; reflexivity.
  - intros c ->. destruct (error r); simpl; [reflexivity |].
    destruct (c =? 200); reflexivity.
Qed.

(** ** [/now-playing] of the hardened revision *)









(** X14. The hardened revision answers every request with status 400 (no
    credential) or 200, never with the upstream's status.  It throws in two
    situations only: the upstream gave neither error nor response, or it
    gave a 200 with the body [null]; the store is then as before. *)
Theorem hardened_status_and_throws req now r (store : gmap string Hardened.entry) :
  let out := Hardened.now_playing req now r store in
  (∀ answer, out.1 = Responded answer →
     no_store answer = true
     ∧ (status answer = 400 ↔ present (access_token req) = None)
     ∧ (status answer = 200 ↔ present (access_token req) ≠ None))
  ∧ (out.1 = Threw
     ↔ present (access_token req) ≠ None
       ∧ error r = false
       ∧ (response r = None ∨ (response r = Some 200 ∧ body r = JNull)))
  ∧ (out.1 = Threw → out.2 = store).
Proof.
  intros out. subst out. unfold Hardened.now_playing.
  destruct (present (access_token req)) as [tok |] eqn:Htok.
  2: { simpl. split.
       - intros answer H. injection H as <-. simpl.
         split; [reflexivity |]. split; split; congruence.
       - split; [| discriminate]. split; [discriminate | intros [H _]; congruence]. }
  assert (Hsome : Some tok ≠ None) by discriminate.
  assert (Hanswered : ∀ j answer,
            respond 200 j = Responded answer →
            no_store answer = true
            ∧ (status answer = 400 ↔ Some tok = (None : option string))
            ∧ (status answer = 200 ↔ Some tok ≠ None)).
  { intros j answer H. injection H as <-. simpl.
    split; [reflexivity |]. split; split; congruence. }
  unfold Hardened.callback.
  destruct (error r) eqn:Herr.
  { split; [intros answer H; exact (Hanswered _ answer H) |]. split; [| discriminate].
    split; [discriminate | intros (_ & H & _); discriminate]. }
  destruct (response r) as [c |] eqn:Hresp.
  2: { split; [intros answer H; discriminate |]. split; [| reflexivity].
       split; auto. }
  destruct (Z.eqb_spec c 204) as [-> | N204].
  { split; [intros answer H; exact (Hanswered _ answer H) |]. split; [| discriminate].
    split; [discriminate | intros (_ & _ & [H | [H _]]); discriminate]. }
  destruct (Z.eqb_spec c 200) as [-> | N200]; simpl.
  2: { split; [intros answer H; exact (Hanswered _ answer H) |]. split; [| discriminate].
       split; [discriminate | intros (_ & _ & [H | [H _]]); congruence]. }
  destruct (is_object_tag (typeof (body r))) eqn:Hobj; simpl.
  2: { split; [intros answer H; exact (Hanswered _ answer H) |]. split; [| discriminate].
       split; [discriminate |].
       intros (_ & _ & [H | [_ H]]); [discriminate |]. rewrite H in Hobj. discriminate. }
  destruct (make_sample (body r) now) as [sample |] eqn:Hs.
  2: { split; [intros answer H; discriminate |]. split; [| reflexivity].
       split; [| reflexivity]. intros _. split; [exact Hsome |]. split; [reflexivity |].
       right. split; [reflexivity |]. apply (make_sample_throws _ now Hobj). exact Hs. }
  assert (Hnot : body r ≠ JNull).
  { intros H. apply (make_sample_throws _ now Hobj) in H. congruence. }
  destruct (store !! tok) as [last |].
  2: { split; [intros answer H; exact (Hanswered _ answer H) |]. split; [| discriminate].
       split; [discriminate | intros (_ & _ & [H | [_ H]]); [discriminate | contradiction]]. }
  destruct (Hardened.stale last sample).
  { split; [intros answer H; exact (Hanswered _ answer H) |]. split; [| discriminate].
    split; [discriminate | intros (_ & _ & [H | [_ H]]); [discriminate | contradiction]]. }
  destruct (Hardened.track_changed last sample
            && (negb (Hardened.nearEnd last now) && newIsYoung sample)).
  { split; [intros answer H; exact (Hanswered _ answer H) |]. split; [| discriminate].
    split; [discriminate | intros (_ & _ & [H | [_ H]]); [discriminate | contradiction]]. }
  split; [intros answer H; exact (Hanswered _ answer H) |]. split; [| discriminate].
  split; [discriminate | intros (_ & _ & [H | [_ H]]); [discriminate | contradiction]].
Qed.
